(** * CycloneDDS throughput benchmark: publisher and subscriber scripts

    A shallow embedding of [scripts/dds_pub.py] and [scripts/dds_sub.py].

    Conventions of the embedding.
    - Python [int] is [Z].  Python [float] is modelled by exact rationals
      [Q]: every finite binary64 value is a rational, and the rounding of
      the float operations is not modelled.  The non-finite floats appear
      where the scripts can meet them: [float('inf')], which the subscriber
      builds itself, is the constructor [Inf] of [pyfloat], and the values
      [inf], [-inf] and [nan] that [type=float] accepts for [--rate] and
      [--timeout] are constructors of [argfloat].  Where a statement turns
      on rounding, module [Binary64] evaluates the expression of the script
      in binary64 itself.
    - Python [/] is [truediv], which raises [ZeroDivisionError] on a zero
      divisor; exceptions are the [Raise] results of the [result] monad.
      Not modelled: the [OverflowError] of an int beyond the range of
      floats, and failures of [writer.write], [reader.take] and
      [time.sleep]; every statement is about runs in which these do not
      occur.
    - The environment is explicit: [time.perf_counter] reads an oracle
      [clock : nat -> Q] (the k-th call returns [clock k]), [reader.take]
      reads an oracle [transport : nat -> list sample], and every call
      that has an effect appends an [event] to the trace of the [World].
    - The [while] loop of the subscriber takes fuel; [None] means that the
      fuel ran out, never that the script stopped. *)

From Stdlib Require Import ZArith QArith Qminmax Lia Lqa.
From Stdlib.Strings Require Import Byte.
From Stdlib Require Floats.PrimFloat Floats.SpecFloat Floats.FloatOps.
From stdpp Require Import base option list.

Open Scope Q_scope.

(** ** Python values, exceptions and the few builtins the scripts use *)

Module Py.

Inductive exn : Type :=
  | ZeroDivisionError
  | ValueError.

Inductive result (A : Type) : Type :=
  | Ok (a : A)
  | Raise (e : exn).

Arguments Ok {A} a.
Arguments Raise {A} e.

#[export] Instance result_ret : MRet result := fun _ a => Ok a.

#[export] Instance result_bind : MBind result := fun _ _ f m =>
  match m with
  | Ok a => f a
  | Raise e => Raise e
  end.

(** [a / b] on numbers. *)
Definition truediv (a b : Q) : result Q :=
  if Qeq_bool b 0 then Raise ZeroDivisionError else Ok (a / b).

(** [a > b] and [a < b] on floats. *)
Definition Qltb (a b : Q) : bool := negb (Qle_bool b a).
Definition Qgtb (a b : Q) : bool := Qltb b a.

(** A float that is either finite or [float('inf')]. *)
Inductive pyfloat : Type :=
  | Fin (q : Q)
  | Inf.

(** A float read from the command line by [type=float]: finite, or one of
    [inf], [-inf], [nan]. *)
Inductive argfloat : Type :=
  | Finite (q : Q)
  | PlusInf
  | MinusInf
  | NaN.

Coercion Finite : Q >-> argfloat.

(** [x > y] for a finite [x] and any float [y]: false against [nan] and
    [inf], true against [-inf]. *)
Definition Qgt_arg (x : Q) (y : argfloat) : bool :=
  match y with
  | Finite q => Qgtb x q
  | PlusInf => false
  | MinusInf => true
  | NaN => false
  end.

(** [x * 8] for [x] a float, [8] a positive int. *)
Definition scale (x : pyfloat) (k : Q) : pyfloat :=
  match x with
  | Fin q => Fin (q * k)
  | Inf => Inf
  end.

(** Truth value of an object that is [None] or a float: [None] and [0.0]
    are false. *)
Definition truthy (t : option Q) : bool :=
  match t with
  | None => false
  | Some q => negb (Qeq_bool q 0)
  end.

(** [range(n)]: empty when [n <= 0]. *)
Definition range (n : Z) : list Z := seqZ 0 n.

(** One element of the argument of [bytes(...)]: an int outside
    [range(256)] raises [ValueError]. *)
Definition byte_of_int (x : Z) : result byte :=
  if (0 <=? x)%Z && (x <? 256)%Z then
    match Byte.of_N (Z.to_N x) with
    | Some b => Ok b
    | None => Raise ValueError
    end
  else Raise ValueError.

(** [bytes(iterable_of_ints)]. *)
Fixpoint bytes (xs : list Z) : result (list byte) :=
  match xs with
  | [] => Ok []
  | x :: xs' =>
      b ← byte_of_int x;
      bs ← bytes xs';
      Ok (b :: bs)
  end.

(** The int value of a byte, [bs[i]] in Python. *)
Definition int_of_byte (b : byte) : Z := Z.of_N (Byte.to_N b).

End Py.

Import Py.

(** ** The environment: clock, trace of effects *)

Module Env.

Inductive sample : Type :=
  | BenchmarkData (data : list byte)
  | InvalidSample.

Inductive event : Type :=
  | Slept (d : Q)                      (* time.sleep(d) *)
  | Read (t : Q)                       (* time.perf_counter() returned t *)
  | Wrote (data : list byte)           (* writer.write(msg) *)
  | Took (batch : list sample)         (* reader.take(n) returned batch *)
  | PrintedProgress (received count : Z)
  | PrintedTimeout (timeout : argfloat).

Record World : Type := mkWorld {
  reads : nat;            (* calls of perf_counter so far *)
  polls : nat;            (* calls of reader.take so far *)
  trace : list event      (* effects so far, oldest first *)
}.

Definition init : World := {| reads := 0; polls := 0; trace := [] |}.

Definition emit (e : event) (σ : World) : World :=
  {| reads := reads σ; polls := polls σ; trace := trace σ ++ [e] |}.

Definition perf_counter (clock : nat -> Q) (σ : World) : Q * World :=
  let t := clock (reads σ) in
  (t, {| reads := S (reads σ); polls := polls σ; trace := trace σ ++ [Read t] |}).

Definition sleep (d : Q) (σ : World) : World := emit (Slept d) σ.

(** [reader.take(n)]: at most [n] of the samples the transport holds. *)
Definition reader_take (transport : nat -> list sample) (n : nat) (σ : World)
  : list sample * World :=
  let batch := take n (transport (polls σ)) in
  (batch, {| reads := reads σ; polls := S (polls σ); trace := trace σ ++ [Took batch] |}).

Definition writer_write (data : list byte) (σ : World) : World := emit (Wrote data) σ.

End Env.

Import Env.

(** ** dds_pub.py *)

Module Pub.

(** [make_data_bytes(size)]. *)
Definition make_data_bytes (size : Z) : result (list byte) :=
  bytes ((fun i => i mod 256)%Z <$> range size).

(** The [--qos] choices. *)
Inductive qos_preset : Type :=
  | Reliable
  | HighThroughput
  | BestEffort.

(** The figures of the "Publisher Results" block. *)
Record Results : Type := mkResults {
  elapsed : Q;              (* Elapsed time *)
  throughput_msgs : Q;      (* msg/s *)
  throughput_mbps : Q;      (* MB/s *)
  throughput_bits : Q       (* Mbps, [throughput_mbps * 8] *)
}.

Section Publisher.

Variable clock : nat -> Q.

(** [interval], from [args.rate]: [1.0 / args.rate] when [args.rate > 0],
    which is [0.0] for the rate [inf]; [0] otherwise, also for [nan]. *)
Definition interval (rate : argfloat) : result Q :=
  match rate with
  | Finite q => if Qgtb q 0 then truediv 1 q else Ok 0
  | PlusInf => Ok 0
  | MinusInf => Ok 0
  | NaN => Ok 0
  end.

(** [sleep_time] of iteration [i], from the reading [now]. *)
Definition sleep_time (interval start_time now : Q) (i : Z) : Q :=
  let elapsed := now - start_time in
  let expected := inject_Z (i + 1) * interval in
  expected - elapsed.

(** The [if interval > 0:] block of the loop body. *)
Definition pace (interval start_time : Q) (i : Z) (σ : World) : World :=
  if Qgtb interval 0 then
    let (now, σ1) := perf_counter clock σ in
    let s := sleep_time interval start_time now i in
    if Qgtb s 0 then sleep s σ1 else σ1
  else σ.

(** One iteration of [for i in range(args.count)]. *)
Definition send (msg : list byte) (interval start_time : Q)
    (σ : World) (i : Z) : World :=
  pace interval start_time i (writer_write msg σ).

Definition publish_loop (msg : list byte) (interval start_time : Q)
    (count : Z) (σ : World) : World :=
  fold_left (send msg interval start_time) (range count) σ.

(** The keep-alive after the results. *)
Definition drain (qos : qos_preset) (σ : World) : World :=
  match qos with
  | Reliable => sleep 1 σ
  | _ => σ
  end.

(** [main()], from the creation of the message on; the arguments are
    the parsed [args]. *)
Definition main (size count : Z) (rate : argfloat) (qos : qos_preset) (σ0 : World)
  : result (Results * World) :=
  msg ← make_data_bytes size;
  let σ1 := sleep 2 σ0 in
  interval ← interval rate;
  let (start_time, σ2) := perf_counter clock σ1 in
  let σ3 := publish_loop msg interval start_time count σ2 in
  let (end_time, σ4) := perf_counter clock σ3 in
  let elapsed := end_time - start_time in
  let total_bytes := (size * count)%Z in
  throughput_msgs ← truediv (inject_Z count) elapsed;
  throughput_bytes ← truediv (inject_Z total_bytes) elapsed;
  throughput_mbps ← truediv throughput_bytes (1024 * 1024);
  let results :=
    {| elapsed := elapsed;
       throughput_msgs := throughput_msgs;
       throughput_mbps := throughput_mbps;
       throughput_bits := throughput_mbps * 8 |} in
  Ok (results, drain qos σ4).

End Publisher.

End Pub.

(** ** The schedule of dds_pub.py in binary64

    The two expressions that fix the targets of the pacer, [1.0 / args.rate]
    and [(i + 1) * interval], evaluated as the interpreter does: on IEEE 754
    binary64 values, with the int [i + 1] converted to the nearest float. *)

Module Binary64.

Import PrimFloat SpecFloat FloatOps.

(** The conversion of an int in [int * float]: the nearest float, ties to
    even; [None] for an int out of range, where Python raises. *)
Definition float_of_int (z : Z) : option float :=
  match binary_normalize 53 1024 z 0 false with
  | S754_infinity _ => None
  | f => Some (SF2Prim f)
  end.

(** [interval = 1.0 / args.rate]. *)
Definition interval (rate : float) : float := PrimFloat.div PrimFloat.one rate.

(** [expected = (i + 1) * interval]. *)
Definition expected (interval : float) (i : Z) : option float :=
  x ← float_of_int (i + 1); Some (PrimFloat.mul x interval).

End Binary64.

(** ** dds_sub.py *)

Module Sub.

(** The variables of the receive loop. *)
Record Window : Type := mkWindow {
  received_count : Z;
  total_bytes : Z;
  first_msg_time : option Q;
  last_msg_time : option Q
}.

(** Their values before the loop. *)
Definition zero : Window :=
  {| received_count := 0; total_bytes := 0;
     first_msg_time := None; last_msg_time := None |}.

(** How the loop was left: by its condition or by [break]. *)
Inductive outcome : Type :=
  | Complete
  | Timeout.

(** The figures of the "Subscriber Results" block. *)
Record Report : Type := mkReport {
  elapsed : Q;
  throughput_msgs : pyfloat;
  throughput_mbps : pyfloat
}.

Record Summary : Type := mkSummary {
  messages_received : Z;          (* Messages received: n/count *)
  bytes_received : Z;             (* Total bytes received *)
  elapsed_time : Q;               (* Elapsed time *)
  msgs_per_s : pyfloat;           (* msg/s *)
  mbytes_per_s : pyfloat;         (* MB/s *)
  mbits_per_s : pyfloat;          (* Mbps, [throughput_mbps * 8] *)
  message_loss : option Q         (* Message loss, when printed *)
}.

(** The body of [for sample in samples:]. *)
Definition on_sample (count : Z) (now : Q) (st : Window * World) (s : sample)
  : Window * World :=
  let (w, σ) := st in
  match s with
  | InvalidSample => (w, σ)
  | BenchmarkData data =>
      let first := match first_msg_time w with
                   | None => Some now
                   | Some t => Some t
                   end in
      let received := (received_count w + 1)%Z in
      let w' := {| received_count := received;
                   total_bytes := (total_bytes w + Z.of_nat (length data))%Z;
                   first_msg_time := first;
                   last_msg_time := Some now |} in
      if (received mod 100 =? 0)%Z
      then (w', emit (PrintedProgress received count) σ)
      else (w', σ)
  end.

Definition on_batch (count : Z) (now : Q) (samples : list sample)
    (st : Window * World) : Window * World :=
  fold_left (on_sample count now) samples st.

(** The throughput figures computed after the loop. *)
Definition throughput (w : Window) : result Report :=
  if truthy (first_msg_time w) && truthy (last_msg_time w)
     && (1 <? received_count w)%Z
  then
    match first_msg_time w, last_msg_time w with
    | Some first, Some last =>
        let elapsed := last - first in
        if Qgtb elapsed 0 then
          throughput_msgs ← truediv (inject_Z (received_count w - 1)) elapsed;
          throughput_bytes ← truediv (inject_Z (total_bytes w)) elapsed;
          throughput_mbps ← truediv throughput_bytes (1024 * 1024);
          Ok {| elapsed := elapsed;
                throughput_msgs := Fin throughput_msgs;
                throughput_mbps := Fin throughput_mbps |}
        else
          Ok {| elapsed := elapsed; throughput_msgs := Inf; throughput_mbps := Inf |}
    | _, _ =>
        (* not reached: both are truthy, hence set *)
        Ok {| elapsed := 0; throughput_msgs := Fin 0; throughput_mbps := Fin 0 |}
    end
  else
    Ok {| elapsed := 0; throughput_msgs := Fin 0; throughput_mbps := Fin 0 |}.

(** The loss figure, printed only [if received_count < args.count]. *)
Definition loss (count : Z) (w : Window) : result (option Q) :=
  if (received_count w <? count)%Z then
    ratio ← truediv (inject_Z (count - received_count w)) (inject_Z count);
    Ok (Some (ratio * 100))
  else Ok None.

(** Everything after the loop. *)
Definition report (count : Z) (w : Window) : result Summary :=
  r ← throughput w;
  loss_rate ← loss count w;
  Ok {| messages_received := received_count w;
        bytes_received := total_bytes w;
        elapsed_time := elapsed r;
        msgs_per_s := throughput_msgs r;
        mbytes_per_s := throughput_mbps r;
        mbits_per_s := scale (throughput_mbps r) 8;
        message_loss := loss_rate |}.

Section Subscriber.

Variable clock : nat -> Q.
Variable transport : nat -> list sample.
Variable count : Z.
Variable timeout : argfloat.

(** One pass through the body of [while received_count < args.count],
    after the condition held: [inl] is [break], [inr] goes back to the
    condition. *)
Definition poll (start_wait : Q) (w : Window) (σ : World)
  : (Window * World) + (Window * World) :=
  let (t, σ1) := perf_counter clock σ in
  if Qgt_arg (t - start_wait) timeout then
    inl (w, emit (PrintedTimeout timeout) σ1)
  else
    let (samples, σ2) := reader_take transport 1000 σ1 in
    match samples with
    | [] => inr (w, sleep 0.001 σ2)
    | _ :: _ =>
        let (now, σ3) := perf_counter clock σ2 in
        inr (on_batch count now samples (w, σ3))
    end.

(** The [while] loop, with fuel for its passes. *)
Fixpoint receive_loop (fuel : nat) (start_wait : Q) (w : Window) (σ : World)
  : option (outcome * Window * World) :=
  match fuel with
  | O => None
  | S fuel' =>
      if (received_count w <? count)%Z then
        match poll start_wait w σ with
        | inl (w', σ') => Some (Timeout, w', σ')
        | inr (w', σ') => receive_loop fuel' start_wait w' σ'
        end
      else Some (Complete, w, σ)
  end.

(** [main()], from the initialisation of the counters on. *)
Definition main (fuel : nat) (σ0 : World)
  : option (result (outcome * Summary * World)) :=
  let (start_wait, σ1) := perf_counter clock σ0 in
  match receive_loop fuel start_wait zero σ1 with
  | None => None
  | Some (o, w, σ) =>
      Some (s ← report count w; Ok (o, s, σ))
  end.

End Subscriber.

End Sub.

(** ** Vocabulary of the statements *)

(** Time spent in [time.sleep] along a trace. *)
Definition delay (es : list event) : Q :=
  foldr (fun e acc => match e with Slept d => d + acc | _ => acc end) 0 es.

(** Number of [writer.write] calls along a trace. *)
Fixpoint writes (es : list event) : nat :=
  match es with
  | [] => O
  | Wrote _ :: es' => S (writes es')
  | _ :: es' => writes es'
  end.

(** The report of a window without a measurable span. *)
Definition zero_report : Sub.Report :=
  {| Sub.elapsed := 0; Sub.throughput_msgs := Fin 0; Sub.throughput_mbps := Fin 0 |}.

(** The window of the example [report(1000, 1_048_576, 1.0)]: a thousand
    messages, one MiB, first and last arrival one second apart. *)
Definition window_1000 : Sub.Window :=
  {| Sub.received_count := 1000; Sub.total_bytes := 1048576;
     Sub.first_msg_time := Some 1; Sub.last_msg_time := Some 2 |}.

(** Number of data samples of a batch. *)
Fixpoint valid (samples : list sample) : Z :=
  match samples with
  | [] => 0
  | BenchmarkData _ :: rest => 1 + valid rest
  | InvalidSample :: rest => valid rest
  end.

(** Payload bytes of the data samples of a batch. *)
Fixpoint payload_bytes (samples : list sample) : Z :=
  match samples with
  | [] => 0
  | BenchmarkData data :: rest => Z.of_nat (length data) + payload_bytes rest
  | InvalidSample :: rest => payload_bytes rest
  end.

(** The data samples of a batch, in order. *)
Fixpoint data_only (samples : list sample) : list sample :=
  match samples with
  | [] => []
  | BenchmarkData data :: rest => BenchmarkData data :: data_only rest
  | InvalidSample :: rest => data_only rest
  end.

(** The batch that the poll of the world [σ] takes. *)
Definition batch_of (transport : nat -> list sample) (σ : World) : list sample :=
  take 1000 (transport (polls σ)).

(** Whether the check of the world [σ] finds the deadline passed. *)
Definition timed_out (clock : nat -> Q) (timeout : argfloat) (start_wait : Q)
    (σ : World) : bool :=
  Qgt_arg (clock (reads σ) - start_wait) timeout.

(** Data samples yielded by the first [n] polls of a transport. *)
Fixpoint yielded (transport : nat -> list sample) (n : nat) : Z :=
  match n with
  | O => 0
  | S m => yielded transport m + valid (take 1000 (transport m))
  end.

(** From the reading [n0] on, every reading is past the deadline. *)
Definition deadline_passes (clock : nat -> Q) (timeout : argfloat) (start_wait : Q)
    (n0 : nat) : Prop :=
  forall n, (n0 <= n)%nat -> Qgt_arg (clock n - start_wait) timeout = true.

(** The world in which the receive loop starts: [start_wait] was read. *)
Definition started (clock : nat -> Q) : World := (perf_counter clock init).2.

(** The loss figure for [received] messages out of [count]. *)
Definition loss_rate (count received : Z) : Q :=
  inject_Z (count - received) / inject_Z count * 100.

(** ** Clocks and transports of the examples *)

(** A clock that advances by one second per reading. *)
Definition steady_clock (n : nat) : Q := inject_Z (Z.of_nat n).

(** The spacing of the finest binary64 values: every finite float is an
    integer multiple of [2^-1074]. *)
Definition quantum : Q := 1 # (2 ^ 1074).

(** The rationals a float clock can return. *)
Definition binary64_grid (q : Q) : Prop := exists z : Z, q == inject_Z z * quantum.

(** A transport on which nothing ever arrives. *)
Definition silent : nat -> list sample := fun _ => [].

(** A transport that yields one lifecycle notice per poll. *)
Definition notices : nat -> list sample := fun _ => [InvalidSample].

(** A transport that yields three data samples at the first poll. *)
Definition burst : nat -> list sample := fun n =>
  match n with
  | O => [BenchmarkData [x00]; BenchmarkData [x01]; BenchmarkData [x02]]
  | S _ => []
  end.

(** A transport that yields two data samples at the first poll. *)
Definition pair_at_once : nat -> list sample := fun n =>
  match n with
  | O => [BenchmarkData [x00; x01]; BenchmarkData [x00; x01]]
  | S _ => []
  end.

(** A clock whose readings are all [0.0]. *)
Definition frozen_clock : nat -> Q := fun _ => 0.

(** A transport that yields two data samples over two polls, the second
    next to a lifecycle notice, and nothing afterwards. *)
Definition trickle : nat -> list sample := fun n =>
  match n with
  | 0%nat => [BenchmarkData [x00; x01]]
  | 1%nat => [InvalidSample; BenchmarkData [x00; x01]]
  | _ => []
  end.

(** ** Vocabulary of the further statements *)

(** Payload bytes yielded by the first [n] polls of a transport. *)
Fixpoint yielded_bytes (transport : nat -> list sample) (n : nat) : Z :=
  match n with
  | O => 0
  | S m => yielded_bytes transport m + payload_bytes (take 1000 (transport m))
  end.

(** Empty batches among the first [n] polls of a transport. *)
Fixpoint empties (transport : nat -> list sample) (n : nat) : nat :=
  match n with
  | O => O
  | S m => match take 1000 (transport m) with
           | [] => S (empties transport m)
           | _ :: _ => empties transport m
           end
  end.

(** The progress lines up to [received] messages: one per hundred. *)
Definition hundreds (count received : Z) : list event :=
  (fun j => PrintedProgress (100 * j) count) <$> seqZ 1 (received / 100).

(** The progress lines of a trace. *)
Fixpoint progress (es : list event) : list event :=
  match es with
  | [] => []
  | PrintedProgress r c :: es' => PrintedProgress r c :: progress es'
  | _ :: es' => progress es'
  end.

(** The sleeps of a trace. *)
Fixpoint naps (es : list event) : list Q :=
  match es with
  | [] => []
  | Slept d :: es' => d :: naps es'
  | _ :: es' => naps es'
  end.

(** The batches taken along a trace. *)
Fixpoint took (es : list event) : list (list sample) :=
  match es with
  | [] => []
  | Took b :: es' => b :: took es'
  | _ :: es' => took es'
  end.

(** The timeout lines of a trace. *)
Fixpoint timeouts (es : list event) : list argfloat :=
  match es with
  | [] => []
  | PrintedTimeout t :: es' => t :: timeouts es'
  | _ :: es' => timeouts es'
  end.

(** The payloads written along a trace. *)
Fixpoint payloads (es : list event) : list (list byte) :=
  match es with
  | [] => []
  | Wrote d :: es' => d :: payloads es'
  | _ :: es' => payloads es'
  end.

(** A transport that hands the written payloads [ws] to the reader in
    order, as much as each poll can take. *)
Definition loopback (ws : list (list byte)) : nat -> list sample := fun k =>
  BenchmarkData <$> take 1000 (drop (1000 * k) ws).

(** Whether an event is a progress line. *)
Definition is_progress (e : event) : Prop :=
  match e with PrintedProgress _ _ => True | _ => False end.

(** The wait of the pacer at index [i], as the spec words it: [waits] holds
    nothing or one positive sleep, and amounts to
    [max(0, expected - elapsed)], with [expected = (i + 1) * interval] and
    [elapsed = now - start_time]. *)
Definition paced_wait (interval start_time now : Q) (i : nat) (waits : list event) : Prop :=
  let expected := inject_Z (Z.of_nat i + 1) * interval in
  let elapsed := now - start_time in
  delay waits == Qmax 0 (expected - elapsed)
  /\ (waits = [] \/ exists d, waits = [Slept d] /\ 0 < d)
  /\ (expected <= elapsed -> waits = []).

(** Whether the loop paces its sends, that is whether [interval > 0]: for
    a finite rate above zero only.  The rate [inf] is above zero too, but
    [1.0 / inf] is [0.0]. *)
Definition paces (rate : argfloat) : bool :=
  match rate with
  | Finite q => Qgtb q 0
  | PlusInf => false
  | MinusInf => false
  | NaN => false
  end.

(** A clock that never goes back. *)
Definition nondecreasing (clock : nat -> Q) : Prop :=
  forall n, clock n <= clock (S n).

(** ** Properties of the payload generator *)

Lemma byte_of_int_ok (x : Z) :
  (0 <= x < 256)%Z -> exists b, byte_of_int x = Ok b /\ int_of_byte b = x.
Proof.
  intros Hx. unfold byte_of_int.
  replace ((0 <=? x)%Z && (x <? 256)%Z) with true
    by (symmetry; apply andb_true_iff; split; [apply Z.leb_le | apply Z.ltb_lt]; lia).
  destruct (Byte.of_N (Z.to_N x)) as [b|] eqn:Hb.
  - exists b. split; [reflexivity|]. unfold int_of_byte.
    apply Byte.to_of_N in Hb. rewrite Hb. lia.
  - apply Byte.of_N_None_iff in Hb. lia.
Qed.

Lemma bytes_ok (xs : list Z) :
  Forall (fun x => (0 <= x < 256)%Z) xs ->
  exists bs, bytes xs = Ok bs /\ int_of_byte <$> bs = xs.
Proof.
  induction 1 as [|x xs Hx _ IH]; simpl.
  - exists []. split; reflexivity.
  - destruct (byte_of_int_ok x Hx) as (b & -> & Hb).
    destruct IH as (bs & -> & Hbs). simpl.
    exists (b :: bs). split; [reflexivity|]. by rewrite fmap_cons, Hb, Hbs.
Qed.

Lemma mod256_range (xs : list Z) :
  Forall (fun x => (0 <= x < 256)%Z) ((fun i => i mod 256)%Z <$> xs).
Proof.
  apply Forall_fmap, Forall_forall. intros x _. simpl.
  apply Z.mod_pos_bound. lia.
Qed.

Example make_data_bytes_3 : Pub.make_data_bytes 3 = Ok [x00; x01; x02].
Proof. reflexivity. Qed.

Example make_data_bytes_wraps :
  match Pub.make_data_bytes 258 with
  | Ok bs => int_of_byte <$> bs !! 257%nat
  | Raise _ => None
  end = Some 1%Z.
Proof. reflexivity. Qed.

Example make_data_bytes_negative : Pub.make_data_bytes (-5) = Ok [].
Proof. reflexivity. Qed.

(** C2. For every [size >= 0], [make_data_bytes size] returns (without
    raising) a byte sequence of length exactly [size] whose byte at every
    index [i] is [i mod 256]; the function is deterministic: any two
    results for the same size are equal. *)
Theorem make_data_bytes_spec (size : Z) :
  (0 <= size)%Z ->
  exists bs,
    Pub.make_data_bytes size = Ok bs
    /\ Z.of_nat (length bs) = size
    /\ (forall i : nat, (Z.of_nat i < size)%Z ->
          int_of_byte <$> (bs !! i) = Some (Z.of_nat i mod 256)%Z)
    /\ (forall bs', Pub.make_data_bytes size = Ok bs' -> bs' = bs).
Proof.
  intros Hsize. unfold Pub.make_data_bytes.
  destruct (bytes_ok _ (mod256_range (range size))) as (bs & Hbs & Hval).
  exists bs. split; [exact Hbs|]. split; [|split].
  - assert (Hlen : length bs = length (range size)).
    { rewrite <- (length_fmap int_of_byte bs), Hval. apply length_fmap. }
    rewrite Hlen. unfold range. rewrite length_seqZ. lia.
  - intros i Hi. rewrite <- list_lookup_fmap, Hval, list_lookup_fmap.
    unfold range. rewrite lookup_seqZ_lt by lia. simpl. f_equal.
  - intros bs' Hbs'. rewrite Hbs in Hbs'. by inversion Hbs'.
Qed.

Lemma make_data_bytes_spec_witness :
  exists bs,
    Pub.make_data_bytes 300 = Ok bs
    /\ Z.of_nat (length bs) = 300%Z
    /\ (forall i : nat, (Z.of_nat i < 300)%Z ->
          int_of_byte <$> (bs !! i) = Some (Z.of_nat i mod 256)%Z)
    /\ (forall bs', Pub.make_data_bytes 300 = Ok bs' -> bs' = bs).
Proof. apply (make_data_bytes_spec 300). lia. Defined.

(** ** Comparisons and division *)

Lemma Qgtb_true (a b : Q) : Qgtb a b = true <-> b < a.
Proof.
  unfold Qgtb, Qltb. rewrite negb_true_iff. split.
  - intros H. apply Qnot_le_lt. intros Hle. apply Qle_bool_iff in Hle. congruence.
  - intros H. destruct (Qle_bool a b) eqn:E; [|reflexivity].
    apply Qle_bool_iff in E. lra.
Qed.

Lemma Qgtb_false (a b : Q) : Qgtb a b = false <-> a <= b.
Proof.
  unfold Qgtb, Qltb. rewrite negb_false_iff. apply Qle_bool_iff.
Qed.

Lemma Qeq_bool_false (a b : Q) : Qeq_bool a b = false <-> ~ a == b.
Proof.
  split.
  - apply Qeq_bool_neq.
  - intros H. destruct (Qeq_bool a b) eqn:E; [|reflexivity].
    apply Qeq_bool_iff in E. contradiction.
Qed.

Lemma truediv_ok (a b : Q) : ~ b == 0 -> truediv a b = Ok (a / b).
Proof. intros H. unfold truediv. by rewrite (proj2 (Qeq_bool_false b 0) H). Qed.

Lemma truediv_zero (a b : Q) : b == 0 -> truediv a b = Raise ZeroDivisionError.
Proof. intros H. unfold truediv. by rewrite (proj2 (Qeq_bool_iff b 0) H). Qed.

Lemma truthy_Some (q : Q) : truthy (Some q) = true <-> ~ q == 0.
Proof. simpl. rewrite negb_true_iff. apply Qeq_bool_false. Qed.

(** ** The throughput figures of the subscriber *)

(** The figures in the branch that divides. *)
Lemma throughput_rates (w : Sub.Window) (first last : Q) :
  Sub.first_msg_time w = Some first ->
  Sub.last_msg_time w = Some last ->
  ~ first == 0 -> ~ last == 0 ->
  (1 < Sub.received_count w)%Z ->
  0 < last - first ->
  Sub.throughput w =
    Ok {| Sub.elapsed := last - first;
          Sub.throughput_msgs := Fin (inject_Z (Sub.received_count w - 1) / (last - first));
          Sub.throughput_mbps :=
            Fin (inject_Z (Sub.total_bytes w) / (last - first) / (1024 * 1024)) |}.
Proof.
  intros Hf Hl Hf0 Hl0 Hrc Hpos. unfold Sub.throughput.
  rewrite Hf, Hl.
  rewrite (proj2 (truthy_Some first) Hf0), (proj2 (truthy_Some last) Hl0).
  rewrite (proj2 (Z.ltb_lt _ _) Hrc). simpl.
  rewrite (proj2 (Qgtb_true _ _) Hpos).
  rewrite !truediv_ok by lra. reflexivity.
Qed.

(** With at most one message the figures are zero. *)
Lemma throughput_at_most_one (w : Sub.Window) :
  (Sub.received_count w <= 1)%Z -> Sub.throughput w = Ok zero_report.
Proof.
  intros H. unfold Sub.throughput.
  rewrite (proj2 (Z.ltb_ge _ _) H), andb_false_r. reflexivity.
Qed.

(** With several messages at one instant, away from the reading [0.0],
    the rates are the sentinel. *)
Lemma throughput_same_instant (w : Sub.Window) (first last : Q) :
  Sub.first_msg_time w = Some first ->
  Sub.last_msg_time w = Some last ->
  ~ first == 0 -> ~ last == 0 ->
  (1 < Sub.received_count w)%Z ->
  last - first == 0 ->
  Sub.throughput w =
    Ok {| Sub.elapsed := last - first;
          Sub.throughput_msgs := Inf; Sub.throughput_mbps := Inf |}.
Proof.
  intros Hf Hl Hf0 Hl0 Hrc Hz. unfold Sub.throughput.
  rewrite Hf, Hl.
  rewrite (proj2 (truthy_Some first) Hf0), (proj2 (truthy_Some last) Hl0).
  rewrite (proj2 (Z.ltb_lt _ _) Hrc). simpl.
  assert (Hle : last - first <= 0) by lra.
  by rewrite (proj2 (Qgtb_false _ _) Hle).
Qed.

(** The computation of the figures never raises: every division is by a
    positive [elapsed] or by the constant [1024 * 1024]. *)
Lemma throughput_total (w : Sub.Window) : exists r, Sub.throughput w = Ok r.
Proof.
  unfold Sub.throughput.
  destruct (truthy (Sub.first_msg_time w) && truthy (Sub.last_msg_time w)
            && (1 <? Sub.received_count w)%Z); [|eauto].
  destruct (Sub.first_msg_time w) as [first|], (Sub.last_msg_time w) as [last|]; eauto.
  destruct (Qgtb (last - first) 0) eqn:E; [|eauto].
  apply Qgtb_true in E.
  rewrite !truediv_ok by lra. simpl. eauto.
Qed.

(** The loss figure is printed exactly below [count], and its division
    never raises for a count of messages that is not negative. *)
Lemma loss_spec (count : Z) (w : Sub.Window) :
  (0 <= Sub.received_count w)%Z ->
  Sub.loss count w =
    Ok (if (Sub.received_count w <? count)%Z
        then Some (inject_Z (count - Sub.received_count w) / inject_Z count * 100)
        else None).
Proof.
  intros Hrc. unfold Sub.loss.
  destruct (Sub.received_count w <? count)%Z eqn:E; [|reflexivity].
  apply Z.ltb_lt in E.
  rewrite truediv_ok; [reflexivity|].
  unfold Qeq. simpl. lia.
Qed.

Lemma report_spec (count : Z) (w : Sub.Window) (r : Sub.Report) :
  (0 <= Sub.received_count w)%Z ->
  Sub.throughput w = Ok r ->
  Sub.report count w =
    Ok {| Sub.messages_received := Sub.received_count w;
          Sub.bytes_received := Sub.total_bytes w;
          Sub.elapsed_time := Sub.elapsed r;
          Sub.msgs_per_s := Sub.throughput_msgs r;
          Sub.mbytes_per_s := Sub.throughput_mbps r;
          Sub.mbits_per_s := scale (Sub.throughput_mbps r) 8;
          Sub.message_loss :=
            if (Sub.received_count w <? count)%Z
            then Some (inject_Z (count - Sub.received_count w) / inject_Z count * 100)
            else None |}.
Proof.
  intros Hrc Hr. unfold Sub.report. rewrite Hr, (loss_spec count w Hrc). reflexivity.
Qed.

(** C1, as stated, fails: on the example window the message rate is not
    [receivedCount / elapsed]. *)
Lemma subscriber_msg_rate_is_not_count_over_elapsed :
  exists r m,
    Sub.throughput window_1000 = Ok r
    /\ Sub.elapsed r == 1
    /\ Sub.throughput_msgs r = Fin m
    /\ m == 999
    /\ ~ m == inject_Z (Sub.received_count window_1000) / Sub.elapsed r.
Proof.
  eexists _, _. split; [reflexivity|]. simpl.
  split; [reflexivity|]. split; [reflexivity|].
  split; [reflexivity|]. intros H. discriminate H.
Qed.

(** C1, amended.  For every window with [received_count > 1] whose arrival
    times are set, nonzero and [elapsed = last - first > 0] apart, the
    subscriber reports [messageRate = (received_count - 1) / elapsed],
    [byteRateMiB = (total_bytes / elapsed) / (1024 * 1024)] and
    [bitRateMbps = byteRateMiB * 8]; on the example window these are
    [999], [1] and [8]. *)
Theorem subscriber_rates :
  (forall (count : Z) (w : Sub.Window) (first last : Q),
     Sub.first_msg_time w = Some first ->
     Sub.last_msg_time w = Some last ->
     ~ first == 0 -> ~ last == 0 ->
     (1 < Sub.received_count w)%Z ->
     0 < last - first ->
     let elapsed := last - first in
     let messageRate := inject_Z (Sub.received_count w - 1) / elapsed in
     let byteRateMiB := inject_Z (Sub.total_bytes w) / elapsed / (1024 * 1024) in
     exists s,
       Sub.report count w = Ok s
       /\ Sub.elapsed_time s = elapsed
       /\ Sub.msgs_per_s s = Fin messageRate
       /\ Sub.mbytes_per_s s = Fin byteRateMiB
       /\ Sub.mbits_per_s s = Fin (byteRateMiB * 8))
  /\ (exists s m b c,
        Sub.report 1000 window_1000 = Ok s
        /\ Sub.msgs_per_s s = Fin m /\ m == 999
        /\ Sub.mbytes_per_s s = Fin b /\ b == 1
        /\ Sub.mbits_per_s s = Fin c /\ c == 8).
Proof.
  split.
  - intros count w first last Hf Hl Hf0 Hl0 Hrc Hpos elapsed messageRate byteRateMiB.
    eexists. split.
    + apply report_spec; [lia|]. by apply (throughput_rates w first last).
    + simpl. repeat split; reflexivity.
  - eexists _, _, _, _. split; [reflexivity|]. simpl.
    repeat split; reflexivity.
Qed.

Lemma subscriber_rates_witness :
  exists s,
    Sub.report 1000 window_1000 = Ok s
    /\ Sub.elapsed_time s = 2 - 1
    /\ Sub.msgs_per_s s = Fin (inject_Z (1000 - 1) / (2 - 1))
    /\ Sub.mbytes_per_s s = Fin (inject_Z 1048576 / (2 - 1) / (1024 * 1024))
    /\ Sub.mbits_per_s s = Fin (inject_Z 1048576 / (2 - 1) / (1024 * 1024) * 8).
Proof.
  apply (proj1 subscriber_rates 1000%Z window_1000 1 2);
    try reflexivity; try (intros H; discriminate H).
Defined.

(** ** One batch *)

Lemma valid_nonneg (samples : list sample) : (0 <= valid samples)%Z.
Proof. induction samples as [|[d|] rest IH]; simpl; lia. Qed.

Lemma payload_bytes_nonneg (samples : list sample) : (0 <= payload_bytes samples)%Z.
Proof. induction samples as [|[d|] rest IH]; simpl; lia. Qed.

Lemma valid_zero_data_only (samples : list sample) :
  valid samples = 0%Z -> data_only samples = [].
Proof.
  induction samples as [|[d|] rest IH]; simpl; intros H; auto.
  pose proof (valid_nonneg rest). lia.
Qed.

(** A data sample: the four assignments of the loop body. *)
Lemma on_sample_data (count : Z) (now : Q) (w : Sub.Window) (σ : World) (d : list byte) :
  (Sub.on_sample count now (w, σ) (BenchmarkData d)).1
  = {| Sub.received_count := Sub.received_count w + 1;
       Sub.total_bytes := Sub.total_bytes w + Z.of_nat (length d);
       Sub.first_msg_time := match Sub.first_msg_time w with
                             | None => Some now
                             | Some t => Some t
                             end;
       Sub.last_msg_time := Some now |}.
Proof. unfold Sub.on_sample. by destruct (_ =? 0)%Z. Qed.

(** The samples that are not data are skipped: the batch acts as its data
    samples alone, on the window and on the output. *)
Lemma on_batch_data_only (count : Z) (now : Q) (samples : list sample)
    (st : Sub.Window * World) :
  Sub.on_batch count now samples st = Sub.on_batch count now (data_only samples) st.
Proof.
  revert st. induction samples as [|[d|] rest IH]; intros [w σ].
  - reflexivity.
  - apply (IH (Sub.on_sample count now (w, σ) (BenchmarkData d))).
  - apply (IH (w, σ)).
Qed.

Lemma on_batch_no_data (count : Z) (now : Q) (samples : list sample)
    (st : Sub.Window * World) :
  valid samples = 0%Z -> Sub.on_batch count now samples st = st.
Proof.
  intros H. rewrite on_batch_data_only, (valid_zero_data_only samples H).
  reflexivity.
Qed.

(** The window after a batch, field by field. *)
Lemma on_batch_fields (count : Z) (now : Q) (samples : list sample)
    (w : Sub.Window) (σ : World) :
  let w' := (Sub.on_batch count now samples (w, σ)).1 in
  Sub.received_count w' = (Sub.received_count w + valid samples)%Z
  /\ Sub.total_bytes w' = (Sub.total_bytes w + payload_bytes samples)%Z
  /\ Sub.first_msg_time w' =
       match Sub.first_msg_time w with
       | Some t => Some t
       | None => if (valid samples =? 0)%Z then None else Some now
       end
  /\ Sub.last_msg_time w' =
       if (valid samples =? 0)%Z then Sub.last_msg_time w else Some now.
Proof.
  revert w σ. induction samples as [|[d|] rest IH]; intros w σ.
  - simpl. repeat split; try lia. by destruct (Sub.first_msg_time w).
  - pose proof (valid_nonneg rest) as Hv.
    change (Sub.on_batch count now (BenchmarkData d :: rest) (w, σ))
      with (Sub.on_batch count now rest (Sub.on_sample count now (w, σ) (BenchmarkData d))).
    pose proof (on_sample_data count now w σ d) as Hw1.
    destruct (Sub.on_sample count now (w, σ) (BenchmarkData d)) as [w1 σ1].
    simpl in Hw1.
    destruct (IH w1 σ1) as (Hrc & Htb & Hfirst & Hlast).
    cbv zeta. rewrite Hrc, Htb, Hfirst, Hlast, Hw1.
    change (valid (BenchmarkData d :: rest)) with (1 + valid rest)%Z.
    change (payload_bytes (BenchmarkData d :: rest))
      with (Z.of_nat (length d) + payload_bytes rest)%Z.
    replace (1 + valid rest =? 0)%Z with false by (symmetry; apply Z.eqb_neq; lia).
    simpl. repeat split; try lia.
    + by destruct (Sub.first_msg_time w).
    + by destruct (valid rest =? 0)%Z.
  - apply (IH w σ).
Qed.

(** A batch only prints: it makes no reading and no poll. *)
Lemma on_batch_world (count : Z) (now : Q) (samples : list sample)
    (w : Sub.Window) (σ : World) :
  let σ' := (Sub.on_batch count now samples (w, σ)).2 in
  reads σ' = reads σ /\ polls σ' = polls σ.
Proof.
  revert w σ. induction samples as [|[d|] rest IH]; intros w σ.
  - split; reflexivity.
  - change (Sub.on_batch count now (BenchmarkData d :: rest) (w, σ))
      with (Sub.on_batch count now rest (Sub.on_sample count now (w, σ) (BenchmarkData d))).
    unfold Sub.on_sample.
    destruct (_ =? 0)%Z; cbv zeta;
      match goal with |- context [Sub.on_batch _ _ _ (?a, ?b)] =>
        destruct (IH a b) as [-> ->] end; split; reflexivity.
  - apply (IH w σ).
Qed.

(** C6. The items of a batch that are not data samples are skipped without
    an error and contribute nothing: a batch acts exactly as its data
    samples alone, [received_count] grows by the number of data samples and
    [total_bytes] by their payload lengths; a batch of one lifecycle notice
    and one data sample, in either order, adds exactly [1] to
    [received_count] and exactly that sample's length to [total_bytes]. *)
Theorem batch_ignores_non_data :
  forall (count : Z) (now : Q) (w : Sub.Window) (σ : World),
    (forall samples : list sample,
       let w' := (Sub.on_batch count now samples (w, σ)).1 in
       Sub.on_batch count now samples (w, σ)
         = Sub.on_batch count now (data_only samples) (w, σ)
       /\ Sub.received_count w' = (Sub.received_count w + valid samples)%Z
       /\ Sub.total_bytes w' = (Sub.total_bytes w + payload_bytes samples)%Z)
    /\ (forall d : list byte,
          let w1 := (Sub.on_batch count now [InvalidSample; BenchmarkData d] (w, σ)).1 in
          let w2 := (Sub.on_batch count now [BenchmarkData d; InvalidSample] (w, σ)).1 in
          Sub.received_count w1 = (Sub.received_count w + 1)%Z
          /\ Sub.total_bytes w1 = (Sub.total_bytes w + Z.of_nat (length d))%Z
          /\ Sub.received_count w2 = (Sub.received_count w + 1)%Z
          /\ Sub.total_bytes w2 = (Sub.total_bytes w + Z.of_nat (length d))%Z).
Proof.
  intros count now w σ. split.
  - intros samples. split; [apply on_batch_data_only|].
    destruct (on_batch_fields count now samples w σ) as (Hrc & Htb & _).
    split; assumption.
  - intros d.
    destruct (on_batch_fields count now [InvalidSample; BenchmarkData d] w σ)
      as (Hrc1 & Htb1 & _).
    destruct (on_batch_fields count now [BenchmarkData d; InvalidSample] w σ)
      as (Hrc2 & Htb2 & _).
    cbv zeta. rewrite Hrc1, Htb1, Hrc2, Htb2. simpl. repeat split; lia.
Qed.

(** ** One pass of the receive loop *)

Section ReceiveLoop.

Variable clock : nat -> Q.
Variable transport : nat -> list sample.
Variable count : Z.
Variable timeout : argfloat.

Local Abbreviation poll := (Sub.poll clock transport count timeout).
Local Abbreviation receive_loop := (Sub.receive_loop clock transport count timeout).

Lemma poll_timed_out (start_wait : Q) (w : Sub.Window) (σ : World) :
  timed_out clock timeout start_wait σ = true ->
  exists σ', poll start_wait w σ = inl (w, σ')
    /\ reads σ' = S (reads σ) /\ polls σ' = polls σ
    /\ trace σ' = trace σ ++ [Read (clock (reads σ)); PrintedTimeout timeout].
Proof.
  unfold timed_out. intros H. unfold Sub.poll, perf_counter. rewrite H.
  eexists. split; [reflexivity|]. simpl. rewrite <- app_assoc. auto.
Qed.

Lemma poll_in_time (start_wait : Q) (w : Sub.Window) (σ : World) :
  timed_out clock timeout start_wait σ = false ->
  exists σ0 σ',
    poll start_wait w σ = inr ((Sub.on_batch count (clock (S (reads σ))) (batch_of transport σ) (w, σ0)).1, σ')
    /\ polls σ' = S (polls σ)
    /\ (S (reads σ) <= reads σ' <= S (S (reads σ)))%nat.
Proof.
  unfold timed_out. intros H. unfold Sub.poll, perf_counter, reader_take. rewrite H.
  simpl. fold (batch_of transport σ). destruct (batch_of transport σ) as [|s rest] eqn:E.
  - eexists σ, _. split; [reflexivity|]. simpl. split; [reflexivity|lia].
  - match goal with |- context [Sub.on_batch _ _ _ (w, ?σ3)] => set (σ3' := σ3) end.
    exists σ3'.
    destruct (on_batch_world count (clock (S (reads σ))) (s :: rest) w σ3') as [Hr Hp].
    eexists. split.
    + rewrite (surjective_pairing (Sub.on_batch _ _ _ _)) at 1. reflexivity.
    + simpl in Hr, Hp. simpl. rewrite Hr, Hp. simpl. split; [reflexivity|lia].
Qed.

Lemma poll_inl_inv (start_wait : Q) (w w' : Sub.Window) (σ σ' : World) :
  poll start_wait w σ = inl (w', σ') ->
  timed_out clock timeout start_wait σ = true /\ w' = w /\ reads σ' = S (reads σ).
Proof.
  intros H. destruct (timed_out clock timeout start_wait σ) eqn:E.
  - destruct (poll_timed_out start_wait w σ E) as (σ1 & H1 & Hr & _).
    rewrite H1 in H. inversion H; subst. auto.
  - destruct (poll_in_time start_wait w σ E) as (σ0 & σ1 & H1 & _).
    rewrite H1 in H. discriminate.
Qed.

Lemma poll_inr_inv (start_wait : Q) (w w' : Sub.Window) (σ σ' : World) :
  poll start_wait w σ = inr (w', σ') ->
  timed_out clock timeout start_wait σ = false
  /\ (exists σ0, w' = (Sub.on_batch count (clock (S (reads σ))) (batch_of transport σ) (w, σ0)).1)
  /\ polls σ' = S (polls σ)
  /\ (S (reads σ) <= reads σ' <= S (S (reads σ)))%nat.
Proof.
  intros H. destruct (timed_out clock timeout start_wait σ) eqn:E.
  - destruct (poll_timed_out start_wait w σ E) as (σ1 & H1 & _).
    rewrite H1 in H. discriminate.
  - destruct (poll_in_time start_wait w σ E) as (σ0 & σ1 & H1 & Hp & Hr).
    rewrite H1 in H. inversion H; subst. eauto.
Qed.

Lemma poll_empty (start_wait : Q) (w : Sub.Window) (σ : World) :
  timed_out clock timeout start_wait σ = false ->
  batch_of transport σ = [] ->
  exists σ', poll start_wait w σ = inr (w, σ')
    /\ polls σ' = S (polls σ) /\ reads σ' = S (reads σ).
Proof.
  unfold timed_out, batch_of. intros H Hb.
  unfold Sub.poll, perf_counter, reader_take. rewrite H. simpl. rewrite Hb.
  eexists. split; [reflexivity|]. split; reflexivity.
Qed.

Lemma poll_no_data (start_wait : Q) (w : Sub.Window) (σ : World) :
  timed_out clock timeout start_wait σ = false ->
  valid (batch_of transport σ) = 0%Z ->
  exists σ', poll start_wait w σ = inr (w, σ').
Proof.
  intros H Hv. destruct (poll_in_time start_wait w σ H) as (σ0 & σ1 & Hp & _).
  rewrite (on_batch_no_data _ _ _ _ Hv) in Hp. eauto.
Qed.

(** ** The receive loop *)

Lemma receive_loop_step (fuel : nat) (start_wait : Q) (w w' : Sub.Window) (σ σ' : World) :
  (Sub.received_count w < count)%Z ->
  poll start_wait w σ = inr (w', σ') ->
  receive_loop (S fuel) start_wait w σ = receive_loop fuel start_wait w' σ'.
Proof.
  intros Hc Hp. simpl. rewrite (proj2 (Z.ltb_lt _ _) Hc).
  unfold Sub.poll in *. by rewrite Hp.
Qed.

Lemma receive_loop_break (fuel : nat) (start_wait : Q) (w w' : Sub.Window) (σ σ' : World) :
  (Sub.received_count w < count)%Z ->
  poll start_wait w σ = inl (w', σ') ->
  receive_loop (S fuel) start_wait w σ = Some (Sub.Timeout, w', σ').
Proof.
  intros Hc Hp. simpl. rewrite (proj2 (Z.ltb_lt _ _) Hc).
  unfold Sub.poll in *. by rewrite Hp.
Qed.

Lemma receive_loop_done (fuel : nat) (start_wait : Q) (w : Sub.Window) (σ : World) :
  (count <= Sub.received_count w)%Z ->
  receive_loop (S fuel) start_wait w σ = Some (Sub.Complete, w, σ).
Proof. intros Hc. simpl. by rewrite (proj2 (Z.ltb_ge _ _) Hc). Qed.

Lemma receive_loop_more_fuel (fuel : nat) (start_wait : Q) (w : Sub.Window) (σ : World)
    (r : Sub.outcome * Sub.Window * World) :
  receive_loop fuel start_wait w σ = Some r ->
  receive_loop (S fuel) start_wait w σ = Some r.
Proof.
  revert w σ. induction fuel as [|fuel IH]; intros w σ H; [discriminate|].
  simpl in H. change (receive_loop (S (S fuel)) start_wait w σ) with
    (if (Sub.received_count w <? count)%Z
     then match poll start_wait w σ with
          | inl (w', σ') => Some (Sub.Timeout, w', σ')
          | inr (w', σ') => receive_loop (S fuel) start_wait w' σ'
          end
     else Some (Sub.Complete, w, σ)).
  destruct (Sub.received_count w <? count)%Z; [|exact H].
  destruct (poll start_wait w σ) as [[w' σ']|[w' σ']]; [exact H|].
  apply IH, H.
Qed.

Lemma receive_loop_fuel_le (fuel fuel' : nat) (start_wait : Q) (w : Sub.Window)
    (σ : World) (r : Sub.outcome * Sub.Window * World) :
  (fuel <= fuel')%nat ->
  receive_loop fuel start_wait w σ = Some r ->
  receive_loop fuel' start_wait w σ = Some r.
Proof.
  induction 1 as [|fuel' _ IH]; intros H; [exact H|].
  apply receive_loop_more_fuel, IH, H.
Qed.

(** The result does not depend on the fuel. *)
Lemma receive_loop_deterministic (fuel fuel' : nat) (start_wait : Q) (w : Sub.Window)
    (σ : World) (r r' : Sub.outcome * Sub.Window * World) :
  receive_loop fuel start_wait w σ = Some r ->
  receive_loop fuel' start_wait w σ = Some r' ->
  r = r'.
Proof.
  intros H H'. destruct (Nat.le_ge_cases fuel fuel') as [Hle|Hle].
  - apply (receive_loop_fuel_le _ _ _ _ _ _ Hle) in H. congruence.
  - apply (receive_loop_fuel_le _ _ _ _ _ _ Hle) in H'. congruence.
Qed.

(** One pass never lowers the counters and keeps a first arrival time
    that is set. *)
Lemma poll_monotone (start_wait : Q) (w w' : Sub.Window) (σ σ' : World) :
  poll start_wait w σ = inl (w', σ') \/ poll start_wait w σ = inr (w', σ') ->
  (Sub.received_count w <= Sub.received_count w')%Z
  /\ (Sub.total_bytes w <= Sub.total_bytes w')%Z
  /\ (forall t, Sub.first_msg_time w = Some t -> Sub.first_msg_time w' = Some t)
  /\ (reads σ < reads σ')%nat.
Proof.
  intros [H|H].
  - apply poll_inl_inv in H as (_ & -> & Hr). repeat split; auto; lia.
  - apply poll_inr_inv in H as (_ & [σ0 ->] & _ & Hr).
    destruct (on_batch_fields count (clock (S (reads σ))) (batch_of transport σ) w σ0)
      as (Hrc & Htb & Hfirst & _).
    pose proof (valid_nonneg (batch_of transport σ)).
    pose proof (payload_bytes_nonneg (batch_of transport σ)).
    repeat split; try lia.
    intros t Ht. rewrite Hfirst, Ht. reflexivity.
Qed.

Lemma receive_loop_monotone (fuel : nat) (start_wait : Q) (w w' : Sub.Window)
    (σ σ' : World) (o : Sub.outcome) :
  receive_loop fuel start_wait w σ = Some (o, w', σ') ->
  (Sub.received_count w <= Sub.received_count w')%Z
  /\ (Sub.total_bytes w <= Sub.total_bytes w')%Z
  /\ (forall t, Sub.first_msg_time w = Some t -> Sub.first_msg_time w' = Some t)
  /\ (reads σ <= reads σ')%nat.
Proof.
  revert w σ. induction fuel as [|fuel IH]; intros w σ H; [discriminate|].
  simpl in H. destruct (Sub.received_count w <? count)%Z.
  - destruct (poll start_wait w σ) as [[w1 σ1]|[w1 σ1]] eqn:E.
    + inversion H; subst.
      destruct (poll_monotone start_wait w w' σ σ' (or_introl E)) as (? & ? & ? & ?).
      repeat split; auto; lia.
    + destruct (poll_monotone start_wait w w1 σ σ1 (or_intror E)) as (? & ? & Hf & ?).
      destruct (IH w1 σ1 H) as (? & ? & Hf' & ?).
      repeat split; try lia. intros t Ht. apply Hf', Hf, Ht.
  - inversion H; subst. repeat split; auto; lia.
Qed.

(** How the loop is left: by its condition, with the count reached, or by
    [break], below the count and after a reading past the deadline. *)
Lemma receive_loop_exit (fuel : nat) (start_wait : Q) (w w' : Sub.Window)
    (σ σ' : World) (o : Sub.outcome) :
  receive_loop fuel start_wait w σ = Some (o, w', σ') ->
  match o with
  | Sub.Complete => (count <= Sub.received_count w')%Z
  | Sub.Timeout =>
      (Sub.received_count w' < count)%Z
      /\ exists n, reads σ' = S n /\ Qgt_arg (clock n - start_wait) timeout = true
  end.
Proof.
  revert w σ. induction fuel as [|fuel IH]; intros w σ H; [discriminate|].
  simpl in H. destruct (Sub.received_count w <? count)%Z eqn:Hc.
  - destruct (poll start_wait w σ) as [[w1 σ1]|[w1 σ1]] eqn:E.
    + inversion H; subst.
      apply poll_inl_inv in E as (Hlate & -> & Hr).
      split; [by apply Z.ltb_lt|].
      exists (reads σ). split; [exact Hr|]. exact Hlate.
    + apply (IH w1 σ1 H).
  - inversion H; subst. by apply Z.ltb_ge.
Qed.

(** Once the readings stay past the deadline the loop ends, within as many
    passes as readings are left before that. *)
Lemma receive_loop_terminates (n0 fuel : nat) (start_wait : Q) (w : Sub.Window) (σ : World) :
  deadline_passes clock timeout start_wait n0 ->
  (n0 + 1 <= reads σ + fuel)%nat -> (1 <= fuel)%nat ->
  exists r, receive_loop fuel start_wait w σ = Some r.
Proof.
  intros Hpass. revert w σ. induction fuel as [|fuel IH]; intros w σ Hfuel H1; [lia|].
  simpl. destruct (Sub.received_count w <? count)%Z; [|eauto].
  destruct (timed_out clock timeout start_wait σ) eqn:E.
  - destruct (poll_timed_out start_wait w σ E) as (σ1 & -> & _). eauto.
  - destruct (poll_in_time start_wait w σ E) as (σ0 & σ1 & -> & _ & Hr).
    assert (reads σ < n0)%nat.
    { destruct (Nat.lt_ge_cases (reads σ) n0) as [?|Hge]; [assumption|].
      apply Hpass in Hge. unfold timed_out in E. congruence. }
    apply IH; lia.
Qed.

(** With nothing more to arrive, the loop ends by its deadline and leaves
    the window as it is. *)
Lemma receive_loop_drains (n0 fuel : nat) (start_wait : Q) (w : Sub.Window) (σ : World) :
  deadline_passes clock timeout start_wait n0 ->
  (forall n, (polls σ <= n)%nat -> transport n = []) ->
  (Sub.received_count w < count)%Z ->
  (n0 + 1 <= reads σ + fuel)%nat -> (1 <= fuel)%nat ->
  exists σ', receive_loop fuel start_wait w σ = Some (Sub.Timeout, w, σ').
Proof.
  intros Hpass Hempty Hc. revert σ Hempty.
  induction fuel as [|fuel IH]; intros σ Hempty Hfuel H1; [lia|].
  destruct (timed_out clock timeout start_wait σ) eqn:E.
  - destruct (poll_timed_out start_wait w σ E) as (σ1 & Hp & _).
    rewrite (receive_loop_break _ _ _ _ _ _ Hc Hp). eauto.
  - destruct (poll_empty start_wait w σ E) as (σ1 & Hp & Hpolls & Hreads).
    { unfold batch_of. by rewrite Hempty. }
    rewrite (receive_loop_step _ _ _ _ _ _ Hc Hp).
    assert (reads σ < n0)%nat.
    { destruct (Nat.lt_ge_cases (reads σ) n0) as [?|Hge]; [assumption|].
      apply Hpass in Hge. unfold timed_out in E. congruence. }
    apply IH; [|lia|lia].
    intros n Hn. apply Hempty. lia.
Qed.

Lemma yielded_mono (n m : nat) :
  (n <= m)%nat -> (yielded transport n <= yielded transport m)%Z.
Proof.
  induction 1 as [|m _ IH]; [lia|]. simpl.
  pose proof (valid_nonneg (take 1000 (transport m))). lia.
Qed.

(** While the samples arrive in time the loop counts all of them, then
    waits for the deadline. *)
Lemma receive_loop_collects (n0 p : nat) (start_wait : Q) :
  deadline_passes clock timeout start_wait n0 ->
  (forall n, (p <= n)%nat -> transport n = []) ->
  (yielded transport p < count)%Z ->
  (forall j, (j <= 2 * p)%nat -> Qgt_arg (clock j - start_wait) timeout = false) ->
  forall (d : nat) (w : Sub.Window) (σ : World),
    (polls σ + d = p)%nat ->
    (reads σ <= 2 * polls σ + 1)%nat ->
    Sub.received_count w = yielded transport (polls σ) ->
    exists fuel w' σ',
      receive_loop fuel start_wait w σ = Some (Sub.Timeout, w', σ')
      /\ Sub.received_count w' = yielded transport p.
Proof.
  intros Hpass Hempty Hk Hintime. induction d as [|d IH]; intros w σ Hd Hreads Hrc.
  - assert (Hp : polls σ = p) by lia.
    destruct (receive_loop_drains n0 (S n0) start_wait w σ Hpass) as [σ' Hloop];
      try lia.
    + intros n Hn. apply Hempty. lia.
    + rewrite Hrc, Hp. exact Hk.
    + exists (S n0), w, σ'. split; [exact Hloop|]. by rewrite Hrc, Hp.
  - assert (Hc : (Sub.received_count w < count)%Z).
    { rewrite Hrc. pose proof (yielded_mono (polls σ) p). lia. }
    assert (E : timed_out clock timeout start_wait σ = false).
    { apply Hintime. lia. }
    destruct (poll_in_time start_wait w σ E) as (σ0 & σ1 & Hp & Hpolls & Hr).
    destruct (on_batch_fields count (clock (S (reads σ))) (batch_of transport σ) w σ0)
      as (Hrc' & _).
    set (w1 := (Sub.on_batch count (clock (S (reads σ))) (batch_of transport σ) (w, σ0)).1) in *.
    destruct (IH w1 σ1) as (fuel & w' & σ' & Hloop & Hfin); try lia.
    + rewrite Hrc', Hpolls, Hrc. reflexivity.
    + exists (S fuel), w', σ'. split; [|exact Hfin].
      by rewrite (receive_loop_step _ _ _ _ _ _ Hc Hp).
Qed.

End ReceiveLoop.

(** ** Termination of the receive loop *)

Lemma main_unfold (clock : nat -> Q) (transport : nat -> list sample)
    (count : Z) (timeout : argfloat) (fuel : nat) :
  Sub.main clock transport count timeout fuel init =
    match Sub.receive_loop clock transport count timeout fuel (clock O) Sub.zero (started clock) with
    | None => None
    | Some (o, w, σ) => Some (s ← Sub.report count w; Ok (o, s, σ))
    end.
Proof. reflexivity. Qed.

(** A clock with a positive resolution is past any deadline after finitely
    many readings. *)
Lemma tick_lower_bound (clock : nat -> Q) (tick : Q) :
  (forall n, clock n + tick <= clock (S n)) ->
  forall n, clock O + inject_Z (Z.of_nat n) * tick <= clock n.
Proof.
  intros Htick. induction n as [|n IH].
  - change (inject_Z (Z.of_nat O)) with 0. lra.
  - specialize (Htick n). rewrite Nat2Z.inj_succ. unfold Z.succ.
    rewrite inject_Z_plus. change (inject_Z 1) with 1.
    set (a := inject_Z (Z.of_nat n)) in *.
    assert (Hd : (a + 1) * tick == a * tick + tick) by ring.
    rewrite Hd. set (x := a * tick) in *. lra.
Qed.

Lemma tick_deadline (clock : nat -> Q) (timeout tick : Q) :
  0 < tick ->
  (forall n, clock n + tick <= clock (S n)) ->
  exists n0, deadline_passes clock timeout (clock O) n0.
Proof.
  intros Hpos Htick.
  destruct (Qarchimedean (timeout / tick)) as [p Hp].
  exists (Pos.to_nat p). intros n Hn.
  pose proof (tick_lower_bound clock tick Htick n) as Hlow.
  assert (Hq : timeout == timeout / tick * tick) by (field; lra).
  assert (Hlt : timeout / tick * tick < inject_Z (Z.pos p) * tick).
  { apply Qmult_lt_compat_r; assumption. }
  assert (Hle : inject_Z (Z.pos p) * tick <= inject_Z (Z.of_nat n) * tick).
  { apply Qmult_le_compat_r; [|lra]. rewrite <- Zle_Qle. lia. }
  cbn [Qgt_arg]. apply Qgtb_true. lra.
Qed.

(** A strictly increasing clock whose readings are multiples of one
    positive step advances by at least that step. *)
Lemma lattice_tick (clock : nat -> Q) (step : Q) :
  0 < step ->
  (forall n, exists z : Z, clock n == inject_Z z * step) ->
  (forall n, clock n < clock (S n)) ->
  forall n, clock n + step <= clock (S n).
Proof.
  intros Hpos Hgrid Hinc n.
  destruct (Hgrid n) as [a Ha]. destruct (Hgrid (S n)) as [b Hb].
  specialize (Hinc n). rewrite Ha, Hb in Hinc. rewrite Ha, Hb.
  apply Qmult_lt_r in Hinc; [|exact Hpos].
  rewrite <- Zlt_Qlt in Hinc.
  assert (Hab : inject_Z (a + 1) <= inject_Z b) by (rewrite <- Zle_Qle; lia).
  rewrite inject_Z_plus in Hab. change (inject_Z 1) with 1 in Hab.
  apply (Qmult_le_compat_r _ _ step) in Hab; [|lra].
  assert (Hd : (inject_Z a + 1) * step == inject_Z a * step + step) by ring.
  rewrite Hd in Hab. exact Hab.
Qed.

Lemma quantum_pos : 0 < quantum.
Proof. reflexivity. Qed.

Lemma integer_on_grid (z : Z) : binary64_grid (inject_Z z).
Proof.
  exists (z * Z.pos (2 ^ 1074))%Z. unfold quantum, Qeq, Qmult, inject_Z.
  cbn [Qnum Qden]. generalize (2 ^ 1074)%positive. intros p. lia.
Qed.

(** On a float clock that keeps increasing, every deadline other than
    [inf] and [nan] is passed after finitely many readings. *)
Lemma grid_deadline (clock : nat -> Q) (timeout : argfloat) :
  timeout <> PlusInf -> timeout <> NaN ->
  (forall n, binary64_grid (clock n)) ->
  (forall n, clock n < clock (S n)) ->
  exists n0, deadline_passes clock timeout (clock O) n0.
Proof.
  intros Hinf Hnan Hgrid Hinc. destruct timeout as [t| | |]; try congruence.
  - apply (tick_deadline clock t quantum quantum_pos).
    apply (lattice_tick clock quantum quantum_pos Hgrid Hinc).
  - exists O. intros n _. reflexivity.
Qed.

Lemma steady_clock_increases (n : nat) : steady_clock n < steady_clock (S n).
Proof. unfold steady_clock. rewrite <- Zlt_Qlt. lia. Qed.

(** C8, as stated, fails: [--timeout] accepts [inf] and [nan], and the
    elapsed wait exceeds neither.  On a clock that advances by one second
    per reading, and a transport on which nothing arrives, the loop then
    never ends. *)
Lemma unbounded_timeout_never_ends :
  (forall n, steady_clock n < steady_clock (S n))
  /\ (forall n, binary64_grid (steady_clock n))
  /\ (forall fuel, Sub.main steady_clock silent 1000 PlusInf fuel init = None)
  /\ (forall fuel, Sub.main steady_clock silent 1000 NaN fuel init = None).
Proof.
  assert (Hnever : forall timeout : argfloat,
            (forall x, Qgt_arg x timeout = false) ->
            forall fuel, Sub.main steady_clock silent 1000 timeout fuel init = None).
  { intros timeout Hin fuel. rewrite main_unfold.
    enough (H : forall σ, Sub.receive_loop steady_clock silent 1000 timeout fuel
                            (steady_clock O) Sub.zero σ = None) by (by rewrite H).
    induction fuel as [|fuel IH]; intros σ; [reflexivity|].
    destruct (poll_empty steady_clock silent 1000 timeout (steady_clock O) Sub.zero σ)
      as (σ1 & Hpoll & _); [apply Hin | reflexivity |].
    rewrite (receive_loop_step steady_clock silent 1000 timeout fuel (steady_clock O)
               Sub.zero Sub.zero σ σ1 eq_refl Hpoll).
    apply IH. }
  split; [exact steady_clock_increases|].
  split; [intros n; apply integer_on_grid|].
  split; apply Hnever; reflexivity.
Qed.

(** C8, amended.  For every transport trace, every timeout other than
    [inf] and [nan], and every strictly increasing clock whose readings
    are floats, the receive loop terminates, without raising, in exactly
    one of two states whatever the fuel: [Complete], with [received_count]
    no longer below [count], or [Timeout], below [count] and after a
    reading more than [timeout] past [start_wait]; in both the window of
    the loop is what the results report. *)
Theorem receiver_terminates (clock : nat -> Q) (transport : nat -> list sample)
    (count : Z) (timeout : argfloat) :
  timeout <> PlusInf -> timeout <> NaN ->
  (forall n, binary64_grid (clock n)) ->
  (forall n, clock n < clock (S n)) ->
  exists fuel o w s σ,
    Sub.receive_loop clock transport count timeout fuel (clock O) Sub.zero (started clock)
      = Some (o, w, σ)
    /\ Sub.main clock transport count timeout fuel init = Some (Ok (o, s, σ))
    /\ (forall fuel' res,
          Sub.main clock transport count timeout fuel' init = Some res ->
          res = Ok (o, s, σ))
    /\ match o with
       | Sub.Complete => (count <= Sub.received_count w)%Z
       | Sub.Timeout =>
           (Sub.received_count w < count)%Z
           /\ exists n, reads σ = S n /\ Qgt_arg (clock n - clock O) timeout = true
       end
    /\ Sub.messages_received s = Sub.received_count w
    /\ Sub.bytes_received s = Sub.total_bytes w.
Proof.
  intros Hinf Hnan Hgrid Hinc.
  destruct (grid_deadline clock timeout Hinf Hnan Hgrid Hinc) as [n0 Hpass].
  destruct (receive_loop_terminates clock transport count timeout n0 (S n0)
              (clock O) Sub.zero (started clock) Hpass) as [[[o w] σ] Hloop];
    [simpl; lia | lia |].
  destruct (receive_loop_monotone _ _ _ _ _ _ _ _ _ _ _ Hloop) as (Hrc & _).
  destruct (throughput_total w) as [r Hr].
  pose proof (report_spec count w r Hrc Hr) as Hrep.
  eexists (S n0), o, w, _, σ. split; [exact Hloop|]. split; [|split; [|split]].
  - rewrite main_unfold, Hloop, Hrep. reflexivity.
  - intros fuel' res Hres. rewrite main_unfold in Hres.
    destruct (Sub.receive_loop _ _ _ _ fuel' _ _ _) as [[[o' w'] σ']|] eqn:Hloop';
      [|discriminate].
    pose proof (receive_loop_deterministic _ _ _ _ _ _ _ _ _ _ _ Hloop Hloop') as Heq.
    inversion Heq; subst. rewrite Hrep in Hres. by inversion Hres.
  - exact (receive_loop_exit _ _ _ _ _ _ _ _ _ _ _ Hloop).
  - split; reflexivity.
Qed.

Lemma receiver_terminates_witness :
  exists fuel o w s σ,
    Sub.receive_loop steady_clock silent 1000 30 fuel (steady_clock O) Sub.zero
        (started steady_clock)
      = Some (o, w, σ)
    /\ Sub.main steady_clock silent 1000 30 fuel init = Some (Ok (o, s, σ))
    /\ (forall fuel' res,
          Sub.main steady_clock silent 1000 30 fuel' init = Some res ->
          res = Ok (o, s, σ))
    /\ match o with
       | Sub.Complete => (1000 <= Sub.received_count w)%Z
       | Sub.Timeout =>
           (Sub.received_count w < 1000)%Z
           /\ exists n, reads σ = S n /\ Qgt_arg (steady_clock n - steady_clock O) 30 = true
       end
    /\ Sub.messages_received s = Sub.received_count w
    /\ Sub.bytes_received s = Sub.total_bytes w.
Proof.
  apply (receiver_terminates steady_clock silent 1000 30).
  - discriminate.
  - discriminate.
  - intros n. apply integer_on_grid.
  - exact steady_clock_increases.
Defined.

(** ** The window across the loop *)

(** C7, as stated, fails: a non-empty batch that holds no data sample sets
    neither arrival time. *)
Lemma batch_of_notices_sets_no_arrival_time :
  batch_of notices (started steady_clock) <> []
  /\ exists w' σ',
       Sub.poll steady_clock notices 1000 30 (steady_clock O) Sub.zero (started steady_clock)
         = inr (w', σ')
       /\ Sub.first_msg_time w' = None
       /\ Sub.last_msg_time w' = None.
Proof.
  split; [discriminate|]. eexists _, _. split; [reflexivity|]. split; reflexivity.
Qed.

(** C7, amended.  Across every pass of the loop, and across the whole loop,
    [received_count] and [total_bytes] never decrease and a first arrival
    time that is set is never changed.  A pass that breaks leaves the window
    as it is.  A pass that takes a batch adds the number of its data samples
    and their payload bytes; when the batch holds a data sample, the first
    arrival time, if not yet set, becomes the reading taken for the batch
    and the last arrival time becomes that reading; when it holds none
    (empty or notices only) both times are left as they are. *)
Theorem window_monotone :
  forall (clock : nat -> Q) (transport : nat -> list sample) (count : Z)
         (timeout : argfloat) (start_wait : Q) (w : Sub.Window) (σ : World),
    match Sub.poll clock transport count timeout start_wait w σ with
    | inl (w', _) => w' = w
    | inr (w', _) =>
        let batch := batch_of transport σ in
        let now := clock (S (reads σ)) in
        (Sub.received_count w <= Sub.received_count w')%Z
        /\ (Sub.total_bytes w <= Sub.total_bytes w')%Z
        /\ Sub.received_count w' = (Sub.received_count w + valid batch)%Z
        /\ Sub.total_bytes w' = (Sub.total_bytes w + payload_bytes batch)%Z
        /\ Sub.first_msg_time w' =
             match Sub.first_msg_time w with
             | Some t => Some t
             | None => if (valid batch =? 0)%Z then None else Some now
             end
        /\ Sub.last_msg_time w' =
             if (valid batch =? 0)%Z then Sub.last_msg_time w else Some now
    end
    /\ forall fuel,
         match Sub.receive_loop clock transport count timeout fuel start_wait w σ with
         | Some (_, w', _) =>
             (Sub.received_count w <= Sub.received_count w')%Z
             /\ (Sub.total_bytes w <= Sub.total_bytes w')%Z
             /\ match Sub.first_msg_time w with
                | Some t => Sub.first_msg_time w' = Some t
                | None => True
                end
         | None => True
         end.
Proof.
  intros clock transport count timeout start_wait w σ. split.
  - destruct (Sub.poll clock transport count timeout start_wait w σ)
      as [[w' σ']|[w' σ']] eqn:E.
    + by apply poll_inl_inv in E as (_ & -> & _).
    + apply poll_inr_inv in E as (_ & [σ0 ->] & _).
      destruct (on_batch_fields count (clock (S (reads σ))) (batch_of transport σ) w σ0)
        as (Hrc & Htb & Hfirst & Hlast).
      pose proof (valid_nonneg (batch_of transport σ)).
      pose proof (payload_bytes_nonneg (batch_of transport σ)).
      cbv zeta. repeat split; try assumption; lia.
  - intros fuel.
    destruct (Sub.receive_loop clock transport count timeout fuel start_wait w σ)
      as [[[o w'] σ']|] eqn:E; [|exact I].
    destruct (receive_loop_monotone _ _ _ _ _ _ _ _ _ _ _ E) as (Hrc & Htb & Hfirst & _).
    repeat split; try assumption.
    destruct (Sub.first_msg_time w) as [t|]; [|exact I]. by apply Hfirst.
Qed.

(** ** Loss *)

Lemma main_result (clock : nat -> Q) (transport : nat -> list sample)
    (count : Z) (timeout : argfloat) (fuel : nat) (o : Sub.outcome) (w : Sub.Window) (σ : World) :
  Sub.receive_loop clock transport count timeout fuel (clock O) Sub.zero (started clock)
    = Some (o, w, σ) ->
  exists s,
    Sub.main clock transport count timeout fuel init = Some (Ok (o, s, σ))
    /\ Sub.report count w = Ok s
    /\ Sub.messages_received s = Sub.received_count w
    /\ Sub.bytes_received s = Sub.total_bytes w
    /\ Sub.message_loss s =
         if (Sub.received_count w <? count)%Z
         then Some (loss_rate count (Sub.received_count w))
         else None.
Proof.
  intros Hloop.
  destruct (receive_loop_monotone _ _ _ _ _ _ _ _ _ _ _ Hloop) as (Hrc & _).
  destruct (throughput_total w) as [r Hr].
  pose proof (report_spec count w r Hrc Hr) as Hrep.
  eexists. split; [|split; [exact Hrep|]].
  - rewrite main_unfold, Hloop, Hrep. reflexivity.
  - repeat split; reflexivity.
Qed.

(** C5. Whenever the subscriber ends it ends without raising, and it
    prints a loss figure if and only if the final [received_count] is
    strictly below [count]; the figure is
    [(count - received_count) / count * 100].  When the transport yields
    [k < count] data samples over its first [p] polls and nothing
    afterwards, these polls are made before the deadline and the clock
    then passes the deadline, the run ends in [Timeout] with
    [received_count = k] and the loss figure [(count - k) / count * 100]. *)
Theorem loss_report :
  (forall (clock : nat -> Q) (transport : nat -> list sample) (count : Z)
          (timeout : argfloat) (fuel : nat),
     match Sub.main clock transport count timeout fuel init with
     | None => True
     | Some res =>
         exists o s σ,
           res = Ok (o, s, σ)
           /\ ((exists l, Sub.message_loss s = Some l)
                <-> (Sub.messages_received s < count)%Z)
           /\ (forall l, Sub.message_loss s = Some l ->
                 l = loss_rate count (Sub.messages_received s))
     end)
  /\ (forall (clock : nat -> Q) (transport : nat -> list sample) (count : Z)
             (timeout : Q) (p n0 : nat) (k : Z),
        (forall n, (p <= n)%nat -> transport n = []) ->
        yielded transport p = k ->
        (k < count)%Z ->
        (forall j, (j <= 2 * p)%nat -> clock j - clock O <= timeout) ->
        deadline_passes clock timeout (clock O) n0 ->
        exists fuel s σ,
          Sub.main clock transport count timeout fuel init = Some (Ok (Sub.Timeout, s, σ))
          /\ Sub.messages_received s = k
          /\ Sub.message_loss s = Some (loss_rate count k)).
Proof.
  split.
  - intros clock transport count timeout fuel.
    destruct (Sub.main clock transport count timeout fuel init) as [res|] eqn:E; [|exact I].
    rewrite main_unfold in E.
    destruct (Sub.receive_loop _ _ _ _ _ _ _ _) as [[[o w] σ]|] eqn:Hloop; [|discriminate].
    destruct (main_result _ _ _ _ _ _ _ _ Hloop) as (s & _ & Hrep & Hm & _ & Hloss).
    rewrite Hrep in E. inversion E; subst res. exists o, s, σ.
    split; [reflexivity|]. rewrite Hm, Hloss.
    destruct (Sub.received_count w <? count)%Z eqn:Hc.
    + apply Z.ltb_lt in Hc. split; [split; eauto|]. intros l Hl. by inversion Hl.
    + apply Z.ltb_ge in Hc. split; [split|]; [intros [l Hl]; discriminate | lia |].
      intros l Hl. discriminate.
  - intros clock transport count timeout p n0 k Hempty Hk Hlt Hintime Hpass.
    assert (Hk' : (yielded transport p < count)%Z) by (by rewrite Hk).
    assert (Hintime' : forall j, (j <= 2 * p)%nat ->
                         Qgt_arg (clock j - clock O) timeout = false).
    { intros j Hj. apply Qgtb_false, Hintime, Hj. }
    destruct (receive_loop_collects clock transport count timeout n0 p (clock O)
                Hpass Hempty Hk' Hintime' p Sub.zero (started clock))
      as (fuel & w & σ & Hloop & Hrc); [reflexivity | simpl; lia | reflexivity |].
    destruct (main_result _ _ _ _ _ _ _ _ Hloop) as (s & Hmain & _ & Hm & _ & Hloss).
    exists fuel, s, σ. split; [exact Hmain|]. rewrite Hm, Hloss, Hrc, Hk.
    split; [reflexivity|]. by rewrite (proj2 (Z.ltb_lt _ _) Hlt).
Qed.

Lemma steady_clock_in_time (j : nat) :
  (j <= 2 * 2)%nat -> steady_clock j - steady_clock O <= 30.
Proof.
  intros Hj. unfold steady_clock. change (inject_Z (Z.of_nat O)) with 0.
  assert (inject_Z (Z.of_nat j) <= inject_Z 4) by (rewrite <- Zle_Qle; lia).
  change (inject_Z 4) with 4 in *. lra.
Qed.

Lemma steady_clock_deadline : deadline_passes steady_clock 30 (steady_clock O) 31.
Proof.
  intros n Hn. unfold steady_clock. change (inject_Z (Z.of_nat O)) with 0.
  assert (inject_Z 31 <= inject_Z (Z.of_nat n)) by (rewrite <- Zle_Qle; lia).
  change (inject_Z 31) with 31 in *. cbn [Qgt_arg]. apply Qgtb_true. lra.
Qed.

Lemma loss_report_witness :
  exists fuel s σ,
    Sub.main steady_clock trickle 5 30 fuel init = Some (Ok (Sub.Timeout, s, σ))
    /\ Sub.messages_received s = 2%Z
    /\ Sub.message_loss s = Some (loss_rate 5 2).
Proof.
  apply (proj2 loss_report steady_clock trickle 5%Z 30 2%nat 31%nat 2%Z).
  - intros [|[|n]] Hn; [lia | lia | reflexivity].
  - reflexivity.
  - reflexivity.
  - exact steady_clock_in_time.
  - exact steady_clock_deadline.
Defined.

(** The run of the witness, end to end: two of five messages, 60% lost. *)
Example trickle_run :
  exists s σ l,
    Sub.main steady_clock trickle 5 30 40 init = Some (Ok (Sub.Timeout, s, σ))
    /\ Sub.messages_received s = 2%Z
    /\ Sub.bytes_received s = 4%Z
    /\ Sub.message_loss s = Some l
    /\ l == 60.
Proof.
  eexists _, _, _. split; [vm_compute; reflexivity|].
  split; [reflexivity|]. split; [reflexivity|]. split; reflexivity.
Qed.

(** ** Overshoot *)

(** C10. The final [received_count] can exceed [count]: from any point of
    the loop with a positive deficit, a poll made in time that takes a
    batch with more data samples than the deficit takes all of them, the
    loop ends [Complete] above [count], and no loss figure is printed. *)
Theorem receiver_can_overshoot (clock : nat -> Q) (transport : nat -> list sample)
    (count : Z) (timeout : argfloat) (start_wait : Q) (w : Sub.Window) (σ : World) :
  (0 <= Sub.received_count w)%Z ->
  (Sub.received_count w < count)%Z ->
  timed_out clock timeout start_wait σ = false ->
  (count - Sub.received_count w < valid (batch_of transport σ))%Z ->
  exists w' σ' s,
    Sub.receive_loop clock transport count timeout 2 start_wait w σ
      = Some (Sub.Complete, w', σ')
    /\ Sub.received_count w' = (Sub.received_count w + valid (batch_of transport σ))%Z
    /\ (count < Sub.received_count w')%Z
    /\ Sub.report count w' = Ok s
    /\ Sub.messages_received s = Sub.received_count w'
    /\ Sub.message_loss s = None.
Proof.
  intros Hnn Hc Hin Hbig.
  destruct (poll_in_time clock transport count timeout start_wait w σ Hin)
    as (σ0 & σ1 & Hp & _).
  set (w1 := (Sub.on_batch count (clock (S (reads σ))) (batch_of transport σ) (w, σ0)).1) in *.
  destruct (on_batch_fields count (clock (S (reads σ))) (batch_of transport σ) w σ0)
    as (Hrc & _). fold w1 in Hrc.
  destruct (throughput_total w1) as [r Hr].
  eexists w1, σ1, _. split; [|split; [exact Hrc|split; [lia|split]]].
  - rewrite (receive_loop_step _ _ _ _ _ _ _ _ _ _ Hc Hp).
    apply receive_loop_done. lia.
  - apply (report_spec count w1 r); [lia | exact Hr].
  - simpl. split; [reflexivity|].
    replace (Sub.received_count w1 <? count)%Z with false; [reflexivity|].
    symmetry. apply Z.ltb_ge. lia.
Qed.

Lemma receiver_can_overshoot_witness :
  exists w' σ' s,
    Sub.receive_loop steady_clock burst 2 30 2 (steady_clock O) Sub.zero (started steady_clock)
      = Some (Sub.Complete, w', σ')
    /\ Sub.received_count w' = (0 + valid (batch_of burst (started steady_clock)))%Z
    /\ (2 < Sub.received_count w')%Z
    /\ Sub.report 2 w' = Ok s
    /\ Sub.messages_received s = Sub.received_count w'
    /\ Sub.message_loss s = None.
Proof.
  apply (receiver_can_overshoot steady_clock burst 2 30 (steady_clock O)
           Sub.zero (started steady_clock)); reflexivity || (simpl; lia).
Defined.

(** The run of the witness, end to end: three messages for a count of two. *)
Example overshoot_run :
  exists s σ,
    Sub.main steady_clock burst 2 30 2 init = Some (Ok (Sub.Complete, s, σ))
    /\ Sub.messages_received s = 3%Z
    /\ Sub.bytes_received s = 3%Z
    /\ Sub.message_loss s = None.
Proof. eexists _, _. split; [reflexivity|]. repeat split; reflexivity. Qed.

(** ** The arrival time [0.0] *)

(** C4, at the failing input.  Two messages arrive in one batch read at
    [0.0]: [received_count > 1] and the arrival times are equal, yet the
    rates reported are zero, since the test
    [first_msg_time and last_msg_time and received_count > 1] takes the
    reading [0.0] for an unset time. *)
Theorem zero_reading_reports_zero_rates :
  exists w σ s,
    Sub.receive_loop frozen_clock pair_at_once 2 30 2 (frozen_clock O) Sub.zero
        (started frozen_clock)
      = Some (Sub.Complete, w, σ)
    /\ Sub.received_count w = 2%Z
    /\ Sub.first_msg_time w = Some 0
    /\ Sub.last_msg_time w = Some 0
    /\ Sub.main frozen_clock pair_at_once 2 30 2 init = Some (Ok (Sub.Complete, s, σ))
    /\ Sub.elapsed_time s = 0
    /\ Sub.msgs_per_s s = Fin 0
    /\ Sub.mbytes_per_s s = Fin 0.
Proof.
  eexists _, _, _. split; [reflexivity|].
  split; [reflexivity|]. split; [reflexivity|]. split; [reflexivity|].
  split; [reflexivity|]. repeat split; reflexivity.
Qed.

(** The same batch read at any other instant gets the sentinel. *)
Example nonzero_reading_reports_sentinel :
  exists s σ,
    Sub.main (fun _ => 5) pair_at_once 2 30 2 init = Some (Ok (Sub.Complete, s, σ))
    /\ Sub.msgs_per_s s = Inf
    /\ Sub.mbytes_per_s s = Inf
    /\ Sub.mbits_per_s s = Inf.
Proof. eexists _, _. split; [reflexivity|]. repeat split; reflexivity. Qed.

(** An arrival time that reads [0.0] counts as unset, whatever the count
    and the span. *)
Lemma throughput_zero_time (w : Sub.Window) (first last : Q) :
  Sub.first_msg_time w = Some first ->
  Sub.last_msg_time w = Some last ->
  first == 0 \/ last == 0 ->
  Sub.throughput w = Ok zero_report.
Proof.
  intros Hf Hl Hz. unfold Sub.throughput. rewrite Hf, Hl. simpl.
  destruct Hz as [Hz|Hz]; apply Qeq_bool_iff in Hz; rewrite Hz; simpl.
  - reflexivity.
  - by rewrite andb_false_r.
Qed.

(** What holds of the figures for every window: no exception; zero figures
    up to one message; the sentinel for several messages at one nonzero
    instant. *)
Lemma final_rates_safe (w : Sub.Window) :
  (exists r, Sub.throughput w = Ok r)
  /\ ((Sub.received_count w <= 1)%Z -> Sub.throughput w = Ok zero_report)
  /\ (forall first last,
        Sub.first_msg_time w = Some first ->
        Sub.last_msg_time w = Some last ->
        ~ first == 0 -> ~ last == 0 ->
        (1 < Sub.received_count w)%Z ->
        last - first == 0 ->
        exists r, Sub.throughput w = Ok r
          /\ Sub.throughput_msgs r = Inf /\ Sub.throughput_mbps r = Inf).
Proof.
  split; [apply throughput_total|]. split; [apply throughput_at_most_one|].
  intros first last Hf Hl Hf0 Hl0 Hrc Hz. eexists. split.
  - by apply (throughput_same_instant w first last).
  - split; reflexivity.
Qed.

(** ** The publisher: pacing *)

Lemma writes_app (es es' : list event) : writes (es ++ es') = (writes es + writes es')%nat.
Proof.
  induction es as [|e es IH]; [reflexivity|].
  destruct e; simpl; rewrite IH; reflexivity.
Qed.

Lemma interval_paced (rate : Q) :
  0 < rate -> Pub.interval rate = Ok (1 / rate) /\ 0 < 1 / rate.
Proof.
  intros H. unfold Pub.interval. rewrite (proj2 (Qgtb_true rate 0) H).
  rewrite truediv_ok by lra. split; [reflexivity|].
  apply Qlt_shift_div_l; lra.
Qed.

Lemma interval_unlimited (rate : argfloat) :
  (forall q, rate = Finite q -> q <= 0) -> Pub.interval rate = Ok 0.
Proof.
  intros H. destruct rate as [q| | |]; try reflexivity.
  unfold Pub.interval. by rewrite (proj2 (Qgtb_false q 0) (H q eq_refl)).
Qed.

(** What [pace] does, for a positive interval. *)
Lemma pace_paced (clock : nat -> Q) (interval start_time : Q) (i : Z) (σ : World) :
  0 < interval ->
  let now := clock (reads σ) in
  let s := Pub.sleep_time interval start_time now i in
  Pub.pace clock interval start_time i σ =
    {| reads := S (reads σ); polls := polls σ;
       trace := trace σ ++ Read now :: (if Qgtb s 0 then [Slept s] else []) |}.
Proof.
  intros H now s. unfold Pub.pace, perf_counter.
  rewrite (proj2 (Qgtb_true interval 0) H). fold now. fold s.
  destruct (Qgtb s 0); unfold sleep, emit; simpl; [|reflexivity].
  f_equal. by rewrite <- app_assoc.
Qed.

(** One iteration writes once and reads the clock at most once. *)
Lemma send_trace (clock : nat -> Q) (msg : list byte) (interval start_time : Q)
    (σ : World) (i : Z) :
  exists es,
    trace (Pub.send clock msg interval start_time σ i) = trace σ ++ es
    /\ writes es = 1%nat
    /\ (reads σ <= reads (Pub.send clock msg interval start_time σ i))%nat
    /\ (interval <= 0 -> es = [Wrote msg]
        /\ reads (Pub.send clock msg interval start_time σ i) = reads σ).
Proof.
  unfold Pub.send, Pub.pace, writer_write, perf_counter.
  destruct (Qgtb interval 0) eqn:E.
  - apply Qgtb_true in E. simpl.
    match goal with |- context [if ?b then _ else _] => destruct b end; simpl.
    + eexists. rewrite <- !app_assoc. split; [reflexivity|]. simpl.
      split; [reflexivity|]. split; [lia|]. intros H. lra.
    + eexists. rewrite <- !app_assoc. split; [reflexivity|]. simpl.
      split; [reflexivity|]. split; [lia|]. intros H. lra.
  - exists [Wrote msg]. simpl. repeat split; auto.
Qed.

Lemma publish_loop_trace (clock : nat -> Q) (msg : list byte) (interval start_time : Q)
    (count : Z) (σ : World) :
  exists es,
    trace (Pub.publish_loop clock msg interval start_time count σ) = trace σ ++ es
    /\ writes es = Z.to_nat count
    /\ (reads σ <= reads (Pub.publish_loop clock msg interval start_time count σ))%nat
    /\ (interval <= 0 ->
        es = repeat (Wrote msg) (Z.to_nat count)
        /\ reads (Pub.publish_loop clock msg interval start_time count σ) = reads σ).
Proof.
  unfold Pub.publish_loop. rewrite <- (length_seqZ 0 count). unfold range.
  generalize (seqZ 0 count). intros l. revert σ.
  induction l as [|i l IH]; intros σ.
  - exists []. simpl. rewrite app_nil_r. repeat split; auto.
  - simpl fold_left.
    destruct (send_trace clock msg interval start_time σ i) as (es1 & Ht1 & Hw1 & Hr1 & Hz1).
    destruct (IH (Pub.send clock msg interval start_time σ i)) as (es2 & Ht2 & Hw2 & Hr2 & Hz2).
    exists (es1 ++ es2). rewrite Ht2, Ht1, <- app_assoc. split; [reflexivity|].
    rewrite writes_app, Hw1, Hw2. split; [reflexivity|]. split; [lia|].
    intros H. destruct (Hz1 H) as [-> Hr1']. destruct (Hz2 H) as [-> Hr2'].
    split; [reflexivity|]. by rewrite Hr2', Hr1'.
Qed.

(** One iteration of a paced loop: the write, the reading, and the sleep
    when [sleep_time] is positive. *)
Lemma send_paced (clock : nat -> Q) (msg : list byte) (interval start_time : Q)
    (σ : World) (i : Z) :
  0 < interval ->
  let s := Pub.sleep_time interval start_time (clock (reads σ)) i in
  reads (Pub.send clock msg interval start_time σ i) = S (reads σ)
  /\ trace (Pub.send clock msg interval start_time σ i)
     = trace σ ++ Wrote msg :: Read (clock (reads σ)) :: (if Qgtb s 0 then [Slept s] else []).
Proof.
  intros H s. unfold Pub.send.
  rewrite (pace_paced clock interval start_time i (writer_write msg σ) H).
  simpl. fold s. split; [reflexivity|]. by rewrite <- app_assoc.
Qed.

(** The paced loop, iteration by iteration. *)
Lemma publish_loop_paced (clock : nat -> Q) (msg : list byte) (interval start_time : Q)
    (σ : World) (n : nat) :
  0 < interval ->
  let waits := fun i : nat =>
    let s := Pub.sleep_time interval start_time (clock (reads σ + i)%nat) (Z.of_nat i) in
    if Qgtb s 0 then [Slept s] else [] in
  let σ' := fold_left (Pub.send clock msg interval start_time) (seqZ 0 (Z.of_nat n)) σ in
  reads σ' = (reads σ + n)%nat
  /\ trace σ' = trace σ ++ concat ((fun i => Wrote msg :: Read (clock (reads σ + i)%nat) :: waits i)
                                     <$> seq 0 n).
Proof.
  intros H waits. induction n as [|n [IHr IHt]].
  - simpl. split; [lia|]. by rewrite app_nil_r.
  - rewrite Nat2Z.inj_succ. unfold Z.succ. rewrite seqZ_app by lia.
    assert (Hone : seqZ (0 + Z.of_nat n) 1 = [Z.of_nat n]) by (unfold seqZ; simpl; f_equal; lia).
    rewrite Hone, fold_left_app. cbn [fold_left].
    set (σn := fold_left (Pub.send clock msg interval start_time) (seqZ 0 (Z.of_nat n)) σ) in *.
    cbv zeta in IHr, IHt.
    destruct (send_paced clock msg interval start_time σn (Z.of_nat n) H) as [Hr Ht].
    cbv zeta. rewrite Hr, Ht, IHr, IHt. split; [lia|].
    rewrite seq_S, fmap_app, concat_app, <- app_assoc. simpl. by rewrite app_nil_r.
Qed.

Lemma make_data_bytes_total (size : Z) : exists msg, Pub.make_data_bytes size = Ok msg.
Proof.
  destruct (bytes_ok _ (mod256_range (range size))) as (bs & Hbs & _).
  exists bs. exact Hbs.
Qed.

Lemma interval_total (rate : argfloat) : exists interval, Pub.interval rate = Ok interval.
Proof.
  destruct rate as [q| | |]; try (by eexists).
  destruct (Qlt_le_dec 0 q) as [H|H].
  - destruct (interval_paced q H) as [-> _]. eauto.
  - rewrite (interval_unlimited q); [eauto|]. intros q' Hq. by inversion Hq; subst.
Qed.

(** Where a run of [main] that returns leaves the world: after the
    pre-roll sleep, the reading [start_time], the loop run from that
    reading with the interval of the rate, the reading [end_time], and the
    drain. *)
Lemma main_world (clock : nat -> Q) (size count : Z) (rate : argfloat)
    (qos : Pub.qos_preset) (σ0 : World) (r : Pub.Results) (σ' : World) :
  Pub.main clock size count rate qos σ0 = Ok (r, σ') ->
  exists msg interval,
    Pub.make_data_bytes size = Ok msg
    /\ Pub.interval rate = Ok interval
    /\ σ' = Pub.drain qos
              (perf_counter clock
                 (Pub.publish_loop clock msg interval (clock (reads σ0)) count
                    (perf_counter clock (sleep 2 σ0)).2)).2.
Proof.
  unfold Pub.main.
  destruct (make_data_bytes_total size) as [msg Hmsg]. rewrite Hmsg.
  destruct (interval_total rate) as [interval Hint]. rewrite Hint. simpl.
  intros H.
  destruct (truediv (inject_Z count) _) as [m|]; [|discriminate]. simpl in H.
  destruct (truediv (inject_Z (size * count)) _) as [b|]; [|discriminate]. simpl in H.
  inversion H; subst. exists msg, interval. repeat split.
Qed.

Lemma range_to_nat (count : Z) : range count = seqZ 0 (Z.of_nat (Z.to_nat count)).
Proof. unfold range, seqZ. by rewrite Nat2Z.id. Qed.

Lemma delay_writes (msg : list byte) (n : nat) : delay (repeat (Wrote msg) n) == 0.
Proof. induction n as [|n IH]; [reflexivity|exact IH]. Qed.

(** C3, as stated, fails in the arithmetic of the script: the targets
    [(i + 1) * interval] are rounded products, and consecutive ones are not
    always [1 / rate] apart.  At the rate [10.0] the interval is the float
    [0.1], the targets of the indices 1 and 2 are the floats [0.2] and
    [0.30000000000000004], and their difference is above the interval. *)
Lemma binary64_targets_are_not_evenly_spaced :
  exists rate e1 e2,
    Binary64.float_of_int 10 = Some rate
    /\ Binary64.expected (Binary64.interval rate) 1 = Some e1
    /\ Binary64.expected (Binary64.interval rate) 2 = Some e2
    /\ PrimFloat.eqb (PrimFloat.sub e2 e1) (Binary64.interval rate) = false
    /\ PrimFloat.ltb (Binary64.interval rate) (PrimFloat.sub e2 e1) = true.
Proof.
  eexists _, _, _. split; [vm_compute; reflexivity|].
  split; [vm_compute; reflexivity|]. split; [vm_compute; reflexivity|].
  split; vm_compute; reflexivity.
Qed.

(** C3, amended.  For every finite [rate > 0] the interval is [1 / rate]
    and the loop, at every message index [i], writes the message, reads
    the clock once and then waits
    [max(0, (i+1) * (1/rate) - (now - start_time))]: it sleeps once, for
    that positive time, when the target [(i+1) * (1/rate)] is ahead of the
    elapsed time, and not at all when the send is late; so no sleep is
    negative, and lateness adds neither a write nor a reading.  A run of
    [main] that returns is made of the pre-roll sleep, the reading
    [start_time], these events for every index with the elapsed time
    taken from [start_time], the reading [end_time] and the drain.  The
    target depends on the index only, not on the sleeps before; that
    consecutive targets are exactly [1 / rate] apart is not part of the
    statement.  For every rate that is not a finite number above zero, [0]
    and [inf] among them, the interval is [0] and the loop does nothing
    but write: no clock reading, no sleep. *)
Theorem rate_pacer (clock : nat -> Q) (msg : list byte) (start_time : Q)
    (count : Z) (σ : World) :
  (forall rate : Q,
     0 < rate ->
     Pub.interval rate = Ok (1 / rate)
     /\ exists waits : nat -> list event,
          trace (Pub.publish_loop clock msg (1 / rate) start_time count σ)
            = trace σ ++ concat ((fun i => Wrote msg :: Read (clock (reads σ + i)%nat) :: waits i)
                                   <$> seq 0 (Z.to_nat count))
          /\ reads (Pub.publish_loop clock msg (1 / rate) start_time count σ)
             = (reads σ + Z.to_nat count)%nat
          /\ forall i : nat,
               paced_wait (1 / rate) start_time (clock (reads σ + i)%nat) i (waits i))
  /\ (forall (rate : Q) (size : Z) (qos : Pub.qos_preset) (r : Pub.Results) (σ' : World),
        0 < rate ->
        Pub.main clock size count rate qos σ = Ok (r, σ') ->
        exists (payload : list byte) (waits : nat -> list event),
          Pub.make_data_bytes size = Ok payload
          /\ trace σ'
             = trace σ ++ [Slept 2; Read (clock (reads σ))]
               ++ concat ((fun i => Wrote payload :: Read (clock (S (reads σ) + i)%nat) :: waits i)
                            <$> seq 0 (Z.to_nat count))
               ++ [Read (clock (S (reads σ) + Z.to_nat count)%nat)]
               ++ match qos with Pub.Reliable => [Slept 1] | _ => [] end
          /\ forall i : nat,
               paced_wait (1 / rate) (clock (reads σ)) (clock (S (reads σ) + i)%nat) i (waits i))
  /\ (forall rate : argfloat,
        (forall q, rate = Finite q -> q <= 0) ->
        Pub.interval rate = Ok 0
        /\ trace (Pub.publish_loop clock msg 0 start_time count σ)
           = trace σ ++ repeat (Wrote msg) (Z.to_nat count)
        /\ delay (repeat (Wrote msg) (Z.to_nat count)) == 0
        /\ reads (Pub.publish_loop clock msg 0 start_time count σ) = reads σ).
Proof.
  assert (Hwait : forall (interval start now : Q) (i : nat),
            paced_wait interval start now i
              (let s := Pub.sleep_time interval start now (Z.of_nat i) in
               if Qgtb s 0 then [Slept s] else [])).
  { intros interval start now i. unfold paced_wait, Pub.sleep_time. cbv zeta.
    set (s := inject_Z (Z.of_nat i + 1) * interval - (now - start)).
    destruct (Qgtb s 0) eqn:E.
    - apply Qgtb_true in E. split; [|split].
      + simpl. rewrite Q.max_r by lra. lra.
      + right. exists s. by split.
      + intros Hlate. unfold s in E. lra.
    - apply Qgtb_false in E. split; [|split].
      + simpl. rewrite Q.max_l by lra. reflexivity.
      + by left.
      + reflexivity. }
  split; [|split].
  - intros rate Hrate. destruct (interval_paced rate Hrate) as [Hint Hpos].
    split; [exact Hint|].
    destruct (publish_loop_paced clock msg (1 / rate) start_time σ (Z.to_nat count) Hpos)
      as [Hr Ht].
    rewrite <- range_to_nat in Hr, Ht.
    fold (Pub.publish_loop clock msg (1 / rate) start_time count σ) in Hr, Ht.
    eexists. split; [exact Ht|]. split; [exact Hr|].
    intros i. apply Hwait.
  - intros rate size qos r σ' Hrate Hmain.
    destruct (interval_paced rate Hrate) as [Hint Hpos].
    destruct (main_world clock size count rate qos σ r σ' Hmain)
      as (payload & interval & Hpayload & Hint' & ->).
    rewrite Hint in Hint'. inversion Hint'; subst interval. clear Hint'.
    set (σ2 := (perf_counter clock (sleep 2 σ)).2).
    destruct (publish_loop_paced clock payload (1 / rate) (clock (reads σ)) σ2
                (Z.to_nat count) Hpos) as [Hr Ht].
    rewrite <- range_to_nat in Hr, Ht.
    fold (Pub.publish_loop clock payload (1 / rate) (clock (reads σ)) count σ2) in Hr, Ht.
    exists payload. eexists. split; [exact Hpayload|]. split; [|intros i; apply Hwait].
    destruct qos; unfold Pub.drain, sleep, emit, perf_counter; simpl;
      rewrite Ht, Hr; subst σ2; simpl; rewrite <- ?app_assoc; reflexivity.
  - intros rate Hrate. split; [by apply interval_unlimited|].
    destruct (publish_loop_trace clock msg 0 start_time count σ) as (es & Ht & _ & _ & Hz).
    destruct (Hz (Qle_refl 0)) as [-> Hr].
    split; [exact Ht|]. split; [apply delay_writes|exact Hr].
Qed.

Lemma rate_pacer_witness :
  (0 < 10
   /\ Pub.interval 10 = Ok (1 / 10)
   /\ exists waits : nat -> list event,
        trace (Pub.publish_loop steady_clock [x00] (1 / 10) 0 3 (started steady_clock))
          = trace (started steady_clock)
            ++ concat ((fun i => Wrote [x00]
                                   :: Read (steady_clock (reads (started steady_clock) + i)%nat)
                                   :: waits i) <$> seq 0 (Z.to_nat 3))
        /\ forall i : nat,
             paced_wait (1 / 10) 0 (steady_clock (reads (started steady_clock) + i)%nat) i
               (waits i))
  /\ ((forall q, PlusInf = Finite q -> q <= 0)
      /\ Pub.interval PlusInf = Ok 0
      /\ trace (Pub.publish_loop steady_clock [x00] 0 0 3 (started steady_clock))
           = trace (started steady_clock) ++ repeat (Wrote [x00]) 3).
Proof.
  destruct (rate_pacer steady_clock [x00] 0 3 (started steady_clock)) as (Hpaced & _ & Hfree).
  split.
  - assert (Hrate : 0 < 10) by reflexivity.
    destruct (Hpaced 10 Hrate) as (Hint & waits & Ht & _ & Hw).
    split; [exact Hrate|]. split; [exact Hint|].
    exists waits. split; [exact Ht|exact Hw].
  - assert (Hrate : forall q, PlusInf = Finite q -> q <= 0) by (intros q Hq; discriminate Hq).
    destruct (Hfree PlusInf Hrate) as (Hint & Ht & _).
    split; [exact Hrate|]. split; [exact Hint|exact Ht].
Defined.

(** A paced run, end to end: at two messages a second on a clock that
    advances by one second per reading, the first send is already late
    and neither send sleeps. *)
Example paced_run_is_late :
  exists r σ',
    Pub.main steady_clock 1 2 2 Pub.BestEffort init = Ok (r, σ')
    /\ trace σ' = [Slept 2; Read 0; Wrote [x00]; Read 1; Wrote [x00]; Read 2; Read 3].
Proof. eexists _, _. split; [vm_compute; reflexivity|reflexivity]. Qed.

(** The same rate on a clock that does not move during the loop: each
    send waits for its target. *)
Example paced_run_waits :
  exists d0 d1,
    trace (Pub.publish_loop frozen_clock [x00] (1 / 2) 0 2 init)
      = [Wrote [x00]; Read 0; Slept d0; Wrote [x00]; Read 0; Slept d1]
    /\ d0 == 1 # 2 /\ d1 == 1.
Proof. eexists _, _. split; [vm_compute; reflexivity|]. split; reflexivity. Qed.

(** ** The publisher: results *)

(** C9. When the clock has moved between the two readings around the loop,
    the publisher returns its results without raising.  The trace of the
    run is: the pre-roll sleep of two seconds, the reading [start_time],
    the events of the loop with exactly [count] writes, the reading
    [end_time], and, for the reliable preset only, the drain sleep of one
    second.  [elapsed] is [end_time - start_time], so neither sleep is
    inside it, and the rates are [count / elapsed],
    [(count * size) / elapsed / (1024 * 1024)] and that times [8]. *)
Theorem publisher_throughput (clock : nat -> Q) (size count : Z) (rate : argfloat)
    (qos : Pub.qos_preset) (σ0 : World) :
  (forall n, (reads σ0 < n)%nat -> clock (reads σ0) < clock n) ->
  exists r σ' sending start_time end_time,
    Pub.main clock size count rate qos σ0 = Ok (r, σ')
    /\ trace σ' =
         trace σ0 ++ [Slept 2; Read start_time] ++ sending ++ [Read end_time]
           ++ match qos with Pub.Reliable => [Slept 1] | _ => [] end
    /\ writes sending = Z.to_nat count
    /\ Pub.elapsed r = end_time - start_time
    /\ Pub.throughput_msgs r = inject_Z count / Pub.elapsed r
    /\ Pub.throughput_mbps r = inject_Z (count * size) / Pub.elapsed r / (1024 * 1024)
    /\ Pub.throughput_bits r = Pub.throughput_mbps r * 8.
Proof.
  intros Hclock. unfold Pub.main.
  destruct (make_data_bytes_total size) as [msg ->].
  destruct (interval_total rate) as [interval ->]. simpl.
  set (σ2 := {| reads := S (reads σ0); polls := polls σ0;
                trace := (trace σ0 ++ [Slept 2]) ++ [Read (clock (reads σ0))] |}).
  destruct (publish_loop_trace clock msg interval (clock (reads σ0)) count σ2)
    as (sending & Ht & Hw & Hr & _).
  set (σ3 := Pub.publish_loop clock msg interval (clock (reads σ0)) count σ2) in *.
  assert (Hpos : 0 < clock (reads σ3) - clock (reads σ0)).
  { assert (clock (reads σ0) < clock (reads σ3)) by (apply Hclock; simpl in Hr; lia). lra. }
  rewrite !truediv_ok by lra. simpl.
  eexists _, _, sending, (clock (reads σ0)), (clock (reads σ3)).
  split; [reflexivity|]. split; [|split; [exact Hw|]].
  - destruct qos; unfold Pub.drain, sleep, emit; simpl; rewrite Ht; subst σ2; simpl;
      rewrite <- ?app_assoc; reflexivity.
  - simpl. replace (count * size)%Z with (size * count)%Z by lia.
    repeat split; reflexivity.
Qed.

Lemma steady_clock_moves (n : nat) : (0 < n)%nat -> steady_clock O < steady_clock n.
Proof.
  intros Hn. unfold steady_clock. rewrite <- Zlt_Qlt. lia.
Qed.

Lemma publisher_throughput_witness :
  exists r σ' sending start_time end_time,
    Pub.main steady_clock 1024 1000 0 Pub.Reliable init = Ok (r, σ')
    /\ trace σ' =
         trace init ++ [Slept 2; Read start_time] ++ sending ++ [Read end_time]
           ++ [Slept 1]
    /\ writes sending = Z.to_nat 1000
    /\ Pub.elapsed r = end_time - start_time
    /\ Pub.throughput_msgs r = inject_Z 1000 / Pub.elapsed r
    /\ Pub.throughput_mbps r = inject_Z (1000 * 1024) / Pub.elapsed r / (1024 * 1024)
    /\ Pub.throughput_bits r = Pub.throughput_mbps r * 8.
Proof.
  apply (publisher_throughput steady_clock 1024 1000 0 Pub.Reliable init).
  exact steady_clock_moves.
Defined.

(** Without that hypothesis the division of the results raises: on a clock
    that does not move, [elapsed] is zero. *)
Example publisher_frozen_clock_raises :
  Pub.main frozen_clock 4 3 0 Pub.BestEffort init = Raise ZeroDivisionError.
Proof. reflexivity. Qed.

(** ** Traces of the receive loop *)

Lemma progress_app (es es' : list event) : progress (es ++ es') = progress es ++ progress es'.
Proof.
  induction es as [|e es IH]; [reflexivity|]. destruct e; simpl; by rewrite ?IH.
Qed.

Lemma naps_app (es es' : list event) : naps (es ++ es') = naps es ++ naps es'.
Proof.
  induction es as [|e es IH]; [reflexivity|]. destruct e; simpl; by rewrite ?IH.
Qed.

Lemma took_app (es es' : list event) : took (es ++ es') = took es ++ took es'.
Proof.
  induction es as [|e es IH]; [reflexivity|]. destruct e; simpl; by rewrite ?IH.
Qed.

Lemma timeouts_app (es es' : list event) : timeouts (es ++ es') = timeouts es ++ timeouts es'.
Proof.
  induction es as [|e es IH]; [reflexivity|]. destruct e; simpl; by rewrite ?IH.
Qed.

Lemma payloads_app (es es' : list event) : payloads (es ++ es') = payloads es ++ payloads es'.
Proof.
  induction es as [|e es IH]; [reflexivity|]. destruct e; simpl; by rewrite ?IH.
Qed.

Lemma only_progress (es : list event) :
  Forall is_progress es ->
  progress es = es /\ naps es = [] /\ took es = [] /\ timeouts es = [].
Proof.
  induction 1 as [|e es He _ (IH1 & IH2 & IH3 & IH4)]; [by repeat split|].
  destruct e; try destruct He. simpl. by rewrite IH1.
Qed.

(** The progress lines gain one entry at every hundredth message. *)
Lemma hundreds_succ (count r : Z) :
  (0 <= r)%Z ->
  hundreds count (r + 1) =
    hundreds count r
    ++ (if ((r + 1) mod 100 =? 0)%Z then [PrintedProgress (r + 1) count] else []).
Proof.
  intros Hr. unfold hundreds. destruct ((r + 1) mod 100 =? 0)%Z eqn:E.
  - apply Z.eqb_eq in E.
    assert (Hq : ((r + 1) / 100 = r / 100 + 1)%Z) by (Z.div_mod_to_equations; lia).
    rewrite Hq, seqZ_app by (Z.div_mod_to_equations; lia). rewrite fmap_app. f_equal.
    assert (Hs : forall m : Z, seqZ m 1 = [m]).
    { intros m. unfold seqZ. simpl. f_equal. }
    rewrite Hs. simpl. do 2 f_equal. Z.div_mod_to_equations; lia.
  - apply Z.eqb_neq in E.
    assert (Hq : ((r + 1) / 100 = r / 100)%Z) by (Z.div_mod_to_equations; lia).
    by rewrite Hq, app_nil_r.
Qed.

(** What a batch prints: the progress lines of the hundreds it crosses. *)
Lemma on_batch_trace (count : Z) (now : Q) (samples : list sample)
    (w : Sub.Window) (σ : World) :
  (0 <= Sub.received_count w)%Z ->
  exists es,
    trace (Sub.on_batch count now samples (w, σ)).2 = trace σ ++ es
    /\ Forall is_progress es
    /\ hundreds count (Sub.received_count w + valid samples)
       = hundreds count (Sub.received_count w) ++ es.
Proof.
  revert w σ. induction samples as [|[d|] rest IH]; intros w σ Hrc.
  - exists []. simpl. rewrite !app_nil_r, Z.add_0_r. by repeat split.
  - change (Sub.on_batch count now (BenchmarkData d :: rest) (w, σ))
      with (Sub.on_batch count now rest (Sub.on_sample count now (w, σ) (BenchmarkData d))).
    pose proof (on_sample_data count now w σ d) as Hw1.
    pose proof (hundreds_succ count (Sub.received_count w) Hrc) as Hh.
    assert (Hσ1 : trace (Sub.on_sample count now (w, σ) (BenchmarkData d)).2
                  = trace σ ++ (if ((Sub.received_count w + 1) mod 100 =? 0)%Z
                                then [PrintedProgress (Sub.received_count w + 1) count]
                                else [])).
    { unfold Sub.on_sample. destruct (_ =? 0)%Z; simpl; by rewrite ?app_nil_r. }
    destruct (Sub.on_sample count now (w, σ) (BenchmarkData d)) as [w1 σ1].
    simpl in Hw1, Hσ1.
    destruct (IH w1 σ1) as (es & Ht & Hp & Hh'); [rewrite Hw1; simpl; lia|].
    eexists. rewrite Ht, Hσ1, <- app_assoc. split; [reflexivity|]. split.
    + apply Forall_app. split; [|exact Hp]. destruct (_ =? 0)%Z; repeat constructor.
    + change (valid (BenchmarkData d :: rest)) with (1 + valid rest)%Z.
      replace (Sub.received_count w + (1 + valid rest))%Z
        with (Sub.received_count w1 + valid rest)%Z by (rewrite Hw1; simpl; lia).
      rewrite Hh'. replace (Sub.received_count w1) with (Sub.received_count w + 1)%Z
        by (by rewrite Hw1).
      rewrite Hh, <- app_assoc. reflexivity.
  - apply (IH w σ Hrc).
Qed.

Section ReceiveRuns.

Variable clock : nat -> Q.
Variable transport : nat -> list sample.
Variable count : Z.
Variable timeout : argfloat.

Local Abbreviation poll := (Sub.poll clock transport count timeout).
Local Abbreviation receive_loop := (Sub.receive_loop clock transport count timeout).

(** The effects of a pass that goes back to the condition. *)
Lemma poll_inr_trace (start_wait : Q) (w w' : Sub.Window) (σ σ' : World) :
  (0 <= Sub.received_count w)%Z ->
  poll start_wait w σ = inr (w', σ') ->
  match batch_of transport σ with
  | [] =>
      w' = w /\ reads σ' = S (reads σ)
      /\ trace σ' = trace σ ++ [Read (clock (reads σ)); Took []; Slept 0.001]
  | _ :: _ =>
      reads σ' = S (S (reads σ))
      /\ exists es,
           trace σ' = trace σ ++ [Read (clock (reads σ)); Took (batch_of transport σ);
                                  Read (clock (S (reads σ)))] ++ es
           /\ Forall is_progress es
           /\ hundreds count (Sub.received_count w')
              = hundreds count (Sub.received_count w) ++ es
  end.
Proof.
  intros Hrc H. unfold Sub.poll, perf_counter, reader_take in H.
  destruct (Qgt_arg _ _); [discriminate|]. simpl in H.
  fold (batch_of transport σ) in H.
  destruct (batch_of transport σ) as [|s rest] eqn:E.
  - inversion H; subst. simpl. rewrite <- !app_assoc. auto.
  - match type of H with inr (Sub.on_batch _ ?now ?b (w, ?σ3)) = _ =>
      destruct (on_batch_trace count now b w σ3 Hrc) as (es & Ht & Hp & Hh);
      destruct (on_batch_world count now b w σ3) as [Hr _];
      destruct (on_batch_fields count now b w σ3) as (Hf & _);
      destruct (Sub.on_batch count now b (w, σ3)) as [w1 σ1]
    end.
    inversion H; subst. simpl in *. split; [exact Hr|].
    exists es. rewrite Ht, <- !app_assoc. split; [reflexivity|]. split; [exact Hp|].
    by rewrite Hf.
Qed.

(** A rule for the loop: an invariant of the passes that go on, and what
    each way out establishes from it. *)
Lemma receive_loop_rule (I : Sub.Window -> World -> Prop)
    (R : Sub.outcome -> Sub.Window -> World -> Prop) (start_wait : Q) :
  (forall w σ w' σ', I w σ -> (Sub.received_count w < count)%Z ->
     poll start_wait w σ = inr (w', σ') -> I w' σ') ->
  (forall w σ w' σ', I w σ -> (Sub.received_count w < count)%Z ->
     poll start_wait w σ = inl (w', σ') -> R Sub.Timeout w' σ') ->
  (forall w σ, I w σ -> (count <= Sub.received_count w)%Z -> R Sub.Complete w σ) ->
  forall fuel w σ o w' σ',
    I w σ -> receive_loop fuel start_wait w σ = Some (o, w', σ') -> R o w' σ'.
Proof.
  intros Hgo Hbreak Hdone. induction fuel as [|fuel IH]; intros w σ o w' σ' HI H;
    [discriminate|].
  simpl in H. destruct (Sub.received_count w <? count)%Z eqn:Hc.
  - apply Z.ltb_lt in Hc.
    destruct (poll start_wait w σ) as [[w1 σ1]|[w1 σ1]] eqn:E.
    + inversion H; subst. by apply (Hbreak w σ).
    + apply (IH w1 σ1); [|exact H]. by apply (Hgo w σ).
  - apply Z.ltb_ge in Hc. inversion H; subst. by apply Hdone.
Qed.

Lemma receive_loop_invariant (I : Sub.Window -> World -> Prop) (start_wait : Q) :
  (forall w σ w' σ', I w σ -> (Sub.received_count w < count)%Z ->
     poll start_wait w σ = inl (w', σ') \/ poll start_wait w σ = inr (w', σ') ->
     I w' σ') ->
  forall fuel w σ o w' σ',
    I w σ -> receive_loop fuel start_wait w σ = Some (o, w', σ') -> I w' σ'.
Proof.
  intros Hstep fuel w σ o w' σ' HI H.
  apply (receive_loop_rule I (fun _ => I) start_wait) with (fuel := fuel) (w := w) (σ := σ) (o := o);
    eauto.
Qed.

End ReceiveRuns.

(** ** What the receive loop keeps *)

Lemma valid_le_length (samples : list sample) : (valid samples <= Z.of_nat (length samples))%Z.
Proof. induction samples as [|[d|] rest IH]; simpl length; simpl valid; lia. Qed.

Lemma batch_at_most_1000 (transport : nat -> list sample) (σ : World) :
  (0 <= valid (batch_of transport σ) <= 1000)%Z.
Proof.
  pose proof (valid_nonneg (batch_of transport σ)).
  pose proof (valid_le_length (batch_of transport σ)).
  pose proof (firstn_le_length 1000 (transport (polls σ))).
  unfold batch_of in *. lia.
Qed.

Lemma nondecreasing_le (clock : nat -> Q) (n m : nat) :
  nondecreasing clock -> (n <= m)%nat -> clock n <= clock m.
Proof.
  intros Hc. induction 1 as [|m _ IH]; [apply Qle_refl|].
  eapply Qle_trans; [exact IH|apply Hc].
Qed.

(** The effects of a pass that breaks. *)
Lemma poll_inl_trace (clock : nat -> Q) (transport : nat -> list sample)
    (count : Z) (timeout : argfloat) (start_wait : Q) (w w' : Sub.Window) (σ σ' : World) :
  Sub.poll clock transport count timeout start_wait w σ = inl (w', σ') ->
  Qgt_arg (clock (reads σ) - start_wait) timeout = true
  /\ w' = w /\ reads σ' = S (reads σ) /\ polls σ' = polls σ
  /\ trace σ' = trace σ ++ [Read (clock (reads σ)); PrintedTimeout timeout].
Proof.
  intros H. pose proof H as H0. apply poll_inl_inv in H0 as (Hlate & _).
  destruct (poll_timed_out clock transport count timeout start_wait w σ Hlate)
    as (σ1 & H1 & Hr & Hp & Ht).
  rewrite H1 in H. inversion H; subst. auto.
Qed.

(** X1. Nothing taken is lost or counted twice: when the loop ends, however
    it ends, [received_count] is the number of data samples in all the
    batches taken, and [total_bytes] the sum of their payload lengths. *)
Theorem receiver_counts_what_it_takes (clock : nat -> Q) (transport : nat -> list sample)
    (count : Z) (timeout : argfloat) (fuel : nat) (o : Sub.outcome) (w : Sub.Window) (σ : World) :
  Sub.receive_loop clock transport count timeout fuel (clock O) Sub.zero (started clock)
    = Some (o, w, σ) ->
  Sub.received_count w = yielded transport (polls σ)
  /\ Sub.total_bytes w = yielded_bytes transport (polls σ).
Proof.
  apply (receive_loop_invariant clock transport count timeout
           (fun w σ => Sub.received_count w = yielded transport (polls σ)
                       /\ Sub.total_bytes w = yielded_bytes transport (polls σ))
           (clock O)); [|by split].
  intros w0 σ0 w1 σ1 [Hrc Htb] _ [H|H].
  - apply poll_inl_trace in H as (_ & -> & _ & -> & _). by split.
  - apply poll_inr_inv in H as (_ & [σ' ->] & -> & _).
    destruct (on_batch_fields count (clock (S (reads σ0))) (batch_of transport σ0) w0 σ')
      as (Hrc' & Htb' & _).
    rewrite Hrc', Htb', Hrc, Htb. split; reflexivity.
Qed.

Lemma receiver_counts_what_it_takes_witness :
  exists o w σ,
    Sub.receive_loop steady_clock trickle 5 30 40 (steady_clock O) Sub.zero
        (started steady_clock) = Some (o, w, σ)
    /\ Sub.received_count w = yielded trickle (polls σ)
    /\ Sub.total_bytes w = yielded_bytes trickle (polls σ).
Proof.
  destruct (Sub.receive_loop steady_clock trickle 5 30 40 (steady_clock O) Sub.zero
              (started steady_clock)) as [[[o w] σ]|] eqn:E;
    [|vm_compute in E; discriminate].
  exists o, w, σ. split; [reflexivity|].
  apply (receiver_counts_what_it_takes steady_clock trickle 5 30 40 o w σ E).
Defined.

(** X2. The overshoot is bounded by the batch size: a run for a positive
    [count] never ends with more than [count + 999] messages, and a run
    for a [count] that is not positive never polls and ends with none. *)
Theorem receiver_overshoot_is_bounded (clock : nat -> Q) (transport : nat -> list sample)
    (count : Z) (timeout : argfloat) (fuel : nat) (o : Sub.outcome) (w : Sub.Window) (σ : World) :
  Sub.receive_loop clock transport count timeout fuel (clock O) Sub.zero (started clock)
    = Some (o, w, σ) ->
  (0 <= Sub.received_count w)%Z
  /\ (0 < count -> Sub.received_count w <= count + 999)%Z
  /\ (count <= 0 -> Sub.received_count w = 0 /\ polls σ = O)%Z.
Proof.
  intros H.
  enough (Hinv : Sub.received_count w = 0%Z /\ polls σ = O
                 \/ (0 < count /\ 0 <= Sub.received_count w <= count + 999)%Z) by lia.
  revert H.
  apply (receive_loop_invariant clock transport count timeout
           (fun w σ => Sub.received_count w = 0%Z /\ polls σ = O
                       \/ (0 < count /\ 0 <= Sub.received_count w <= count + 999)%Z)
           (clock O)); [|by left].
  intros w0 σ0 w1 σ1 HI Hc [H|H].
  - apply poll_inl_trace in H as (_ & -> & _ & -> & _). exact HI.
  - apply poll_inr_inv in H as (_ & [σ' ->] & _).
    destruct (on_batch_fields count (clock (S (reads σ0))) (batch_of transport σ0) w0 σ')
      as (Hrc' & _).
    pose proof (batch_at_most_1000 transport σ0). right. lia.
Qed.

Lemma receiver_overshoot_is_bounded_witness :
  exists o w σ,
    Sub.receive_loop steady_clock burst 2 30 2 (steady_clock O) Sub.zero
        (started steady_clock) = Some (o, w, σ)
    /\ (0 <= Sub.received_count w)%Z
    /\ (0 < 2 -> Sub.received_count w <= 2 + 999)%Z
    /\ (2 <= 0 -> Sub.received_count w = 0 /\ polls σ = O)%Z.
Proof.
  destruct (Sub.receive_loop steady_clock burst 2 30 2 (steady_clock O) Sub.zero
              (started steady_clock)) as [[[o w] σ]|] eqn:E;
    [|vm_compute in E; discriminate].
  exists o, w, σ. split; [reflexivity|].
  apply (receiver_overshoot_is_bounded steady_clock burst 2 30 2 o w σ E).
Defined.

(** The arrival times against the count and the clock, along the loop. *)
Lemma receive_loop_arrival_times (clock : nat -> Q) (transport : nat -> list sample)
    (count : Z) (timeout : argfloat) (fuel : nat) (o : Sub.outcome) (w : Sub.Window) (σ : World) :
  nondecreasing clock ->
  Sub.receive_loop clock transport count timeout fuel (clock O) Sub.zero (started clock)
    = Some (o, w, σ) ->
  (Sub.received_count w = 0%Z
   /\ Sub.first_msg_time w = None /\ Sub.last_msg_time w = None)
  \/ ((0 < Sub.received_count w)%Z
      /\ exists first last,
           Sub.first_msg_time w = Some first /\ Sub.last_msg_time w = Some last
           /\ clock O <= first /\ first <= last /\ last <= clock (reads σ)).
Proof.
  intros Hmono.
  apply (receive_loop_invariant clock transport count timeout
    (fun w σ =>
       (Sub.received_count w = 0%Z
        /\ Sub.first_msg_time w = None /\ Sub.last_msg_time w = None)
       \/ ((0 < Sub.received_count w)%Z
           /\ exists first last,
                Sub.first_msg_time w = Some first /\ Sub.last_msg_time w = Some last
                /\ clock O <= first /\ first <= last /\ last <= clock (reads σ)))
    (clock O)); [|by left].
  intros w0 σ0 w1 σ1 HI _ [H|H].
  - apply poll_inl_trace in H as (_ & -> & Hr & _).
    destruct HI as [?|(? & f & l & ? & ? & ? & ? & Hl)]; [by left|right].
    split; [assumption|]. exists f, l. repeat split; try assumption.
    rewrite Hr. eapply Qle_trans; [exact Hl|apply Hmono].
  - apply poll_inr_inv in H as (_ & [σ' ->] & _ & Hr).
    destruct (on_batch_fields count (clock (S (reads σ0))) (batch_of transport σ0) w0 σ')
      as (Hrc & _ & Hfirst & Hlast).
    pose proof (valid_nonneg (batch_of transport σ0)) as Hv.
    assert (Hnow0 : clock O <= clock (S (reads σ0))) by (apply nondecreasing_le; [assumption|lia]).
    assert (Hnow1 : clock (reads σ0) <= clock (S (reads σ0))) by apply Hmono.
    assert (Hnow2 : clock (S (reads σ0)) <= clock (reads σ1))
      by (apply nondecreasing_le; [assumption|lia]).
    destruct (valid (batch_of transport σ0) =? 0)%Z eqn:E.
    + apply Z.eqb_eq in E.
      destruct HI as [(H0 & Hf & Hl)|(Hpos & f & l & Hf & Hl & ? & ? & Hle)].
      * left. rewrite Hrc, Hfirst, Hlast, Hf, Hl. repeat split; lia || reflexivity.
      * right. split; [lia|]. exists f, l. rewrite Hfirst, Hlast, Hf, Hl.
        repeat split; try assumption; try reflexivity. lra.
    + apply Z.eqb_neq in E. right.
      destruct HI as [(H0 & Hf & Hl)|(Hpos & f & l & Hf & Hl & ? & ? & Hle)].
      * split; [lia|]. exists (clock (S (reads σ0))), (clock (S (reads σ0))).
        rewrite Hfirst, Hlast, Hf. repeat split; try reflexivity; try assumption.
        apply Qle_refl.
      * split; [lia|]. exists f, (clock (S (reads σ0))).
        rewrite Hfirst, Hlast, Hf. repeat split; try reflexivity; try assumption. lra.
Qed.

(** X3. On a clock that never goes back, the arrival times of a finished
    loop are consistent with the count: with no message both are unset;
    with at least one both are set and
    [start_wait <= first_msg_time <= last_msg_time], so the measured span
    is never negative. *)
Theorem arrival_times_are_ordered (clock : nat -> Q) (transport : nat -> list sample)
    (count : Z) (timeout : argfloat) (fuel : nat) (o : Sub.outcome) (w : Sub.Window) (σ : World) :
  nondecreasing clock ->
  Sub.receive_loop clock transport count timeout fuel (clock O) Sub.zero (started clock)
    = Some (o, w, σ) ->
  (Sub.received_count w = 0%Z
   /\ Sub.first_msg_time w = None /\ Sub.last_msg_time w = None)
  \/ ((0 < Sub.received_count w)%Z
      /\ exists first last,
           Sub.first_msg_time w = Some first /\ Sub.last_msg_time w = Some last
           /\ clock O <= first /\ first <= last).
Proof.
  intros Hmono H.
  destruct (receive_loop_arrival_times clock transport count timeout fuel o w σ Hmono H)
    as [Hnone|(Hpos & first & last & Hf & Hl & Hstart & Hle & _)].
  - left. exact Hnone.
  - right. split; [exact Hpos|]. exists first, last. repeat split; assumption.
Qed.

Lemma steady_clock_nondecreasing : nondecreasing steady_clock.
Proof.
  intros n. unfold steady_clock. rewrite <- Zle_Qle. lia.
Qed.

Lemma arrival_times_are_ordered_witness :
  exists o w σ,
    Sub.receive_loop steady_clock trickle 5 30 40 (steady_clock O) Sub.zero
        (started steady_clock) = Some (o, w, σ)
    /\ ((Sub.received_count w = 0%Z
         /\ Sub.first_msg_time w = None /\ Sub.last_msg_time w = None)
        \/ ((0 < Sub.received_count w)%Z
            /\ exists first last,
                 Sub.first_msg_time w = Some first /\ Sub.last_msg_time w = Some last
                 /\ steady_clock O <= first /\ first <= last)).
Proof.
  destruct (Sub.receive_loop steady_clock trickle 5 30 40 (steady_clock O) Sub.zero
              (started steady_clock)) as [[[o w] σ]|] eqn:E;
    [|vm_compute in E; discriminate].
  exists o, w, σ. split; [reflexivity|].
  apply (arrival_times_are_ordered steady_clock trickle 5 30 40 o w σ
           steady_clock_nondecreasing E).
Defined.

(** X4. The progress lines of a finished run are exactly one per full
    hundred of messages received, in increasing order and each with the
    expected count: [100/count, 200/count, ...] up to the last hundred not
    above the final [received_count]; a batch that crosses several hundreds
    prints them all. *)
Theorem progress_every_hundred (clock : nat -> Q) (transport : nat -> list sample)
    (count : Z) (timeout : argfloat) (fuel : nat) (o : Sub.outcome) (w : Sub.Window) (σ : World) :
  Sub.receive_loop clock transport count timeout fuel (clock O) Sub.zero (started clock)
    = Some (o, w, σ) ->
  progress (trace σ) = hundreds count (Sub.received_count w).
Proof.
  intros H.
  enough (Hinv : (0 <= Sub.received_count w)%Z
                 /\ progress (trace σ) = hundreds count (Sub.received_count w)) by apply Hinv.
  revert H.
  apply (receive_loop_invariant clock transport count timeout
           (fun w σ => (0 <= Sub.received_count w)%Z
                       /\ progress (trace σ) = hundreds count (Sub.received_count w))
           (clock O)); [|by split].
  intros w0 σ0 w1 σ1 [Hrc Hp] _ [H|H].
  - apply poll_inl_trace in H as (_ & -> & _ & _ & ->).
    split; [assumption|]. rewrite progress_app, Hp. simpl. by rewrite app_nil_r.
  - pose proof (poll_inr_trace clock transport count timeout (clock O) w0 w1 σ0 σ1 Hrc H)
      as Ht.
    apply poll_inr_inv in H as (_ & [σ' Hw1] & _).
    destruct (on_batch_fields count (clock (S (reads σ0))) (batch_of transport σ0) w0 σ')
      as (Hrc' & _).
    rewrite <- Hw1 in Hrc'. pose proof (valid_nonneg (batch_of transport σ0)).
    split; [lia|].
    destruct (batch_of transport σ0) as [|s rest].
    + destruct Ht as (-> & _ & ->). rewrite progress_app, Hp. simpl. by rewrite app_nil_r.
    + destruct Ht as (_ & es & -> & Hes & ->).
      rewrite !progress_app, Hp. simpl.
      by rewrite (proj1 (only_progress es Hes)).
Qed.

(** Two hundred and fifty samples over one poll. *)
Lemma progress_every_hundred_witness :
  exists o w σ,
    Sub.receive_loop steady_clock (fun _ => repeat (BenchmarkData [x00]) 250) 250 30 3
        (steady_clock O) Sub.zero (started steady_clock) = Some (o, w, σ)
    /\ progress (trace σ) = hundreds 250 (Sub.received_count w).
Proof.
  destruct (Sub.receive_loop steady_clock (fun _ => repeat (BenchmarkData [x00]) 250) 250 30 3
              (steady_clock O) Sub.zero (started steady_clock)) as [[[o w] σ]|] eqn:E;
    [|vm_compute in E; discriminate].
  exists o, w, σ. split; [reflexivity|].
  apply (progress_every_hundred steady_clock _ 250 30 3 o w σ E).
Defined.

(** The effects of a pass that goes on, by kind. *)
Lemma poll_inr_accounting (clock : nat -> Q) (transport : nat -> list sample)
    (count : Z) (timeout : argfloat) (start_wait : Q) (w w' : Sub.Window) (σ σ' : World) :
  (0 <= Sub.received_count w)%Z ->
  Sub.poll clock transport count timeout start_wait w σ = inr (w', σ') ->
  (0 <= Sub.received_count w')%Z
  /\ polls σ' = S (polls σ)
  /\ reads σ' = match batch_of transport σ with
                | [] => S (reads σ)
                | _ :: _ => S (S (reads σ))
                end
  /\ exists es,
       trace σ' = trace σ ++ es
       /\ timeouts es = []
       /\ took es = [batch_of transport σ]
       /\ naps es = match batch_of transport σ with
                    | [] => [0.001]
                    | _ :: _ => []
                    end.
Proof.
  intros Hrc H.
  pose proof (poll_inr_trace clock transport count timeout start_wait w w' σ σ' Hrc H) as Ht.
  apply poll_inr_inv in H as (_ & [σ0 Hw'] & Hp & _).
  destruct (on_batch_fields count (clock (S (reads σ))) (batch_of transport σ) w σ0)
    as (Hrc' & _).
  rewrite <- Hw' in Hrc'. pose proof (valid_nonneg (batch_of transport σ)).
  split; [lia|]. split; [exact Hp|].
  destruct (batch_of transport σ) as [|s rest].
  - destruct Ht as (_ & Hr & Ht). split; [exact Hr|]. eexists. split; [exact Ht|].
    by repeat split.
  - destruct Ht as (Hr & es & Ht & Hes & _). split; [exact Hr|].
    destruct (only_progress es Hes) as (_ & Hn & Hk & Hto).
    eexists. split; [exact Ht|]. rewrite timeouts_app, took_app, naps_app. simpl.
    by rewrite Hn, Hk, Hto.
Qed.

(** X5. The timeout line is printed exactly when the loop is left by its
    deadline, once, as the last effect of the loop and right after the
    reading that was found late; a run that completes never prints it. *)
Theorem timeout_line_iff_timeout (clock : nat -> Q) (transport : nat -> list sample)
    (count : Z) (timeout : argfloat) (fuel : nat) (o : Sub.outcome) (w : Sub.Window) (σ : World) :
  Sub.receive_loop clock transport count timeout fuel (clock O) Sub.zero (started clock)
    = Some (o, w, σ) ->
  match o with
  | Sub.Complete => timeouts (trace σ) = []
  | Sub.Timeout =>
      timeouts (trace σ) = [timeout]
      /\ exists es t, trace σ = es ++ [Read t; PrintedTimeout timeout]
                      /\ Qgt_arg (t - clock O) timeout = true
  end.
Proof.
  apply (receive_loop_rule clock transport count timeout
           (fun w σ => (0 <= Sub.received_count w)%Z /\ timeouts (trace σ) = [])
           (fun o _ σ =>
              match o with
              | Sub.Complete => timeouts (trace σ) = []
              | Sub.Timeout =>
                  timeouts (trace σ) = [timeout]
                  /\ exists es t, trace σ = es ++ [Read t; PrintedTimeout timeout]
                                  /\ Qgt_arg (t - clock O) timeout = true
              end)
           (clock O)); [| | |by split].
  - intros w0 σ0 w1 σ1 [Hrc HI] _ H.
    destruct (poll_inr_accounting _ _ _ _ _ _ _ _ _ Hrc H)
      as (Hrc' & _ & _ & es & -> & Hto & _).
    split; [exact Hrc'|]. by rewrite timeouts_app, HI, Hto.
  - intros w0 σ0 w1 σ1 [_ HI] _ H.
    apply poll_inl_trace in H as (Hlate & _ & _ & _ & ->).
    rewrite timeouts_app, HI. split; [reflexivity|]. eauto.
  - intros w0 σ0 [_ HI] _. exact HI.
Qed.

Lemma timeout_line_iff_timeout_witness :
  exists o w σ,
    Sub.receive_loop steady_clock trickle 5 30 40 (steady_clock O) Sub.zero
        (started steady_clock) = Some (o, w, σ)
    /\ match o with
       | Sub.Complete => timeouts (trace σ) = []
       | Sub.Timeout =>
           timeouts (trace σ) = [Finite 30]
           /\ exists es t, trace σ = es ++ [Read t; PrintedTimeout 30]
                           /\ Qgt_arg (t - steady_clock O) 30 = true
       end.
Proof.
  destruct (Sub.receive_loop steady_clock trickle 5 30 40 (steady_clock O) Sub.zero
              (started steady_clock)) as [[[o w] σ]|] eqn:E;
    [|vm_compute in E; discriminate].
  exists o, w, σ. split; [reflexivity|].
  apply (timeout_line_iff_timeout steady_clock trickle 5 30 40 o w σ E).
Defined.

(** X6. The calls of a finished loop add up: every batch taken is the
    transport's next one, in order; the loop sleeps one millisecond exactly
    once for every empty batch and never otherwise; and the clock is read
    once before the loop, once per pass, and once more for every batch
    that is not empty. *)
Theorem receive_loop_accounting (clock : nat -> Q) (transport : nat -> list sample)
    (count : Z) (timeout : argfloat) (fuel : nat) (o : Sub.outcome) (w : Sub.Window) (σ : World) :
  Sub.receive_loop clock transport count timeout fuel (clock O) Sub.zero (started clock)
    = Some (o, w, σ) ->
  took (trace σ) = (fun k => take 1000 (transport k)) <$> seq 0 (polls σ)
  /\ naps (trace σ) = repeat 0.001 (empties transport (polls σ))
  /\ (reads σ + empties transport (polls σ)
      = 1 + 2 * polls σ + match o with Sub.Timeout => 1 | Sub.Complete => 0 end)%nat.
Proof.
  apply (receive_loop_rule clock transport count timeout
           (fun w σ =>
              (0 <= Sub.received_count w)%Z
              /\ took (trace σ) = (fun k => take 1000 (transport k)) <$> seq 0 (polls σ)
              /\ naps (trace σ) = repeat 0.001 (empties transport (polls σ))
              /\ (reads σ + empties transport (polls σ) = 1 + 2 * polls σ)%nat)
           (fun o _ σ =>
              took (trace σ) = (fun k => take 1000 (transport k)) <$> seq 0 (polls σ)
              /\ naps (trace σ) = repeat 0.001 (empties transport (polls σ))
              /\ (reads σ + empties transport (polls σ)
                  = 1 + 2 * polls σ + match o with Sub.Timeout => 1 | Sub.Complete => 0 end)%nat)
           (clock O)); [| | |by repeat split].
  - intros w0 σ0 w1 σ1 (Hrc & Htook & Hnaps & Hreads) _ H.
    destruct (poll_inr_accounting _ _ _ _ _ _ _ _ _ Hrc H)
      as (Hrc' & Hp & Hr & es & -> & _ & Hk & Hn).
    split; [exact Hrc'|]. rewrite took_app, naps_app, Htook, Hnaps, Hk, Hn, Hp, Hr.
    rewrite seq_S, fmap_app. split; [reflexivity|].
    simpl empties. unfold batch_of.
    destruct (take 1000 (transport (polls σ0))) as [|s rest].
    + split; [|lia]. rewrite <- repeat_cons. reflexivity.
    + split; [by rewrite app_nil_r|lia].
  - intros w0 σ0 w1 σ1 (_ & Htook & Hnaps & Hreads) _ H.
    apply poll_inl_trace in H as (_ & _ & Hr & Hp & ->).
    rewrite took_app, naps_app, Htook, Hnaps, Hp, Hr. simpl.
    rewrite !app_nil_r. repeat split; lia.
  - intros w0 σ0 (_ & Htook & Hnaps & Hreads) _. repeat split; try assumption. lia.
Qed.

Lemma receive_loop_accounting_witness :
  exists o w σ,
    Sub.receive_loop steady_clock trickle 5 30 40 (steady_clock O) Sub.zero
        (started steady_clock) = Some (o, w, σ)
    /\ took (trace σ) = (fun k => take 1000 (trickle k)) <$> seq 0 (polls σ)
    /\ naps (trace σ) = repeat 0.001 (empties trickle (polls σ))
    /\ (reads σ + empties trickle (polls σ)
        = 1 + 2 * polls σ + match o with Sub.Timeout => 1 | Sub.Complete => 0 end)%nat.
Proof.
  destruct (Sub.receive_loop steady_clock trickle 5 30 40 (steady_clock O) Sub.zero
              (started steady_clock)) as [[[o w] σ]|] eqn:E;
    [|vm_compute in E; discriminate].
  exists o, w, σ. split; [reflexivity|].
  apply (receive_loop_accounting steady_clock trickle 5 30 40 o w σ E).
Defined.

(** ** The figures of a finished subscriber *)

Lemma main_inv (clock : nat -> Q) (transport : nat -> list sample)
    (count : Z) (timeout : argfloat) (fuel : nat) (o : Sub.outcome) (s : Sub.Summary) (σ : World) :
  Sub.main clock transport count timeout fuel init = Some (Ok (o, s, σ)) ->
  exists w,
    Sub.receive_loop clock transport count timeout fuel (clock O) Sub.zero (started clock)
      = Some (o, w, σ)
    /\ Sub.report count w = Ok s.
Proof.
  rewrite main_unfold. intros H.
  destruct (Sub.receive_loop _ _ _ _ _ _ _ _) as [[[o' w] σ']|]; [|discriminate].
  destruct (Sub.report count w) as [s'|e] eqn:E; simpl in H; [|discriminate].
  inversion H; subst. eauto.
Qed.

Lemma percentage_bounds (a c : Q) :
  0 < a -> a <= c ->
  0 <= a / c * 100 /\ a / c * 100 <= 100 /\ (a == c -> a / c * 100 == 100).
Proof.
  intros Ha Hac.
  assert (Hx0 : 0 < a / c) by (apply Qlt_shift_div_l; lra).
  assert (Hx1 : a / c <= 1) by (apply Qle_shift_div_r; lra).
  assert (Hxc : a / c * c == a) by (field; lra).
  set (x := a / c) in *.
  split; [lra|]. split; [lra|].
  intros Heq. rewrite <- Heq in Hxc.
  assert (Hc : (x - 1) * a == 0) by lra.
  apply Qmult_integral in Hc. destruct Hc; lra.
Qed.

(** X7. A loss figure that is printed is a percentage: not below zero, at
    most one hundred, and one hundred when no message was received. *)
Theorem loss_is_a_percentage (clock : nat -> Q) (transport : nat -> list sample)
    (count : Z) (timeout : argfloat) (fuel : nat) (o : Sub.outcome) (s : Sub.Summary)
    (σ : World) (l : Q) :
  Sub.main clock transport count timeout fuel init = Some (Ok (o, s, σ)) ->
  Sub.message_loss s = Some l ->
  0 <= l /\ l <= 100 /\ (Sub.messages_received s = 0%Z -> l == 100).
Proof.
  intros Hmain Hl.
  destruct (main_inv _ _ _ _ _ _ _ _ Hmain) as (w & Hloop & Hrep).
  destruct (receive_loop_monotone _ _ _ _ _ _ _ _ _ _ _ Hloop) as (Hrc & _).
  destruct (throughput_total w) as [r Hr].
  rewrite (report_spec count w r Hrc Hr) in Hrep. inversion Hrep; subst s. clear Hrep.
  simpl in *. destruct (Sub.received_count w <? count)%Z eqn:Hc; [|discriminate].
  apply Z.ltb_lt in Hc. inversion Hl; subst l. clear Hl.
  set (a := inject_Z (count - Sub.received_count w)).
  set (c := inject_Z count).
  assert (Hc0 : 0 < c) by (unfold c; change 0 with (inject_Z 0); rewrite <- Zlt_Qlt; lia).
  assert (Ha0 : 0 < a) by (unfold a; change 0 with (inject_Z 0); rewrite <- Zlt_Qlt; lia).
  assert (Hac : a <= c) by (unfold a, c; rewrite <- Zle_Qle; lia).
  destruct (percentage_bounds a c Ha0 Hac) as (Hl0 & Hl1 & Hl100).
  split; [exact Hl0|]. split; [exact Hl1|].
  intros H0. apply Hl100. unfold a, c. rewrite H0, Z.sub_0_r. reflexivity.
Qed.

Lemma loss_is_a_percentage_witness :
  exists o s σ l,
    Sub.main steady_clock trickle 5 30 40 init = Some (Ok (o, s, σ))
    /\ Sub.message_loss s = Some l
    /\ 0 <= l /\ l <= 100 /\ (Sub.messages_received s = 0%Z -> l == 100).
Proof.
  destruct (Sub.main steady_clock trickle 5 30 40 init) as [[[[o s] σ]|e]|] eqn:E;
    [|vm_compute in E; discriminate|vm_compute in E; discriminate].
  destruct (Sub.message_loss s) as [l|] eqn:El;
    [|vm_compute in E; inversion E; subst s; discriminate El].
  exists o, s, σ, l. split; [reflexivity|]. split; [exact El|].
  apply (loss_is_a_percentage steady_clock trickle 5 30 40 o s σ l E El).
Defined.

(** X8. On a clock that never goes back, a finished subscriber reports no
    negative figure: the elapsed time is not negative, and each rate is
    the sentinel or a number that is not negative. *)
Theorem subscriber_figures_not_negative (clock : nat -> Q) (transport : nat -> list sample)
    (count : Z) (timeout : argfloat) (fuel : nat) (o : Sub.outcome) (s : Sub.Summary) (σ : World) :
  nondecreasing clock ->
  Sub.main clock transport count timeout fuel init = Some (Ok (o, s, σ)) ->
  0 <= Sub.elapsed_time s
  /\ match Sub.msgs_per_s s with Fin q => 0 <= q | Inf => True end
  /\ match Sub.mbytes_per_s s with Fin q => 0 <= q | Inf => True end
  /\ match Sub.mbits_per_s s with Fin q => 0 <= q | Inf => True end.
Proof.
  intros Hmono Hmain.
  destruct (main_inv _ _ _ _ _ _ _ _ Hmain) as (w & Hloop & Hrep).
  destruct (receive_loop_monotone _ _ _ _ _ _ _ _ _ _ _ Hloop) as (Hrc & Htb & _).
  simpl in Hrc, Htb.
  assert (Hcases :
    Sub.throughput w = Ok zero_report
    \/ exists first last,
         0 <= last - first
         /\ (Sub.throughput w =
               Ok {| Sub.elapsed := last - first;
                     Sub.throughput_msgs := Inf; Sub.throughput_mbps := Inf |}
             \/ 0 < last - first
                /\ Sub.throughput w =
                     Ok {| Sub.elapsed := last - first;
                           Sub.throughput_msgs :=
                             Fin (inject_Z (Sub.received_count w - 1) / (last - first));
                           Sub.throughput_mbps :=
                             Fin (inject_Z (Sub.total_bytes w) / (last - first)
                                  / (1024 * 1024)) |})).
  { destruct (Z.le_gt_cases (Sub.received_count w) 1) as [H1|H1];
      [left; by apply throughput_at_most_one|].
    destruct (receive_loop_arrival_times _ _ _ _ _ _ _ _ Hmono Hloop)
      as [(H0 & _)|(_ & first & last & Hf & Hl & _ & Hle & _)]; [lia|].
    destruct (Qeq_dec first 0) as [Hf0|Hf0];
      [left; apply (throughput_zero_time w first last); auto|].
    destruct (Qeq_dec last 0) as [Hl0|Hl0];
      [left; apply (throughput_zero_time w first last); auto|].
    right. exists first, last. split; [lra|].
    destruct (Qlt_le_dec 0 (last - first)) as [Hpos|Hnpos].
    - right. split; [exact Hpos|]. by apply throughput_rates.
    - left. apply (throughput_same_instant w first last); auto; lia || lra. }
  assert (Hrc1 : (1 < Sub.received_count w)%Z -> 0 <= inject_Z (Sub.received_count w - 1)).
  { intros H. change 0 with (inject_Z 0). rewrite <- Zle_Qle. lia. }
  assert (Htb0 : 0 <= inject_Z (Sub.total_bytes w)).
  { change 0 with (inject_Z 0). rewrite <- Zle_Qle. lia. }
  destruct Hcases as [Hz|(first & last & Hle & [Hinf|[Hpos Hfin]])].
  - rewrite (report_spec count w _ Hrc Hz) in Hrep. inversion Hrep; subst s. simpl.
    repeat split; lra.
  - rewrite (report_spec count w _ Hrc Hinf) in Hrep. inversion Hrep; subst s. simpl.
    repeat split; lra.
  - rewrite (report_spec count w _ Hrc Hfin) in Hrep. inversion Hrep; subst s. simpl.
    destruct (Z.le_gt_cases (Sub.received_count w) 1) as [H1|H1].
    { rewrite (throughput_at_most_one w H1) in Hfin.
      pose proof (f_equal (fun r => match r with
                                    | Ok x => Sub.elapsed x
                                    | Raise _ => 0
                                    end) Hfin) as He.
      simpl in He. rewrite <- He in Hpos. lra. }
    specialize (Hrc1 H1).
    assert (Hm : 0 <= inject_Z (Sub.received_count w - 1) / (last - first))
      by (apply Qle_shift_div_l; lra).
    assert (Hb : 0 <= inject_Z (Sub.total_bytes w) / (last - first))
      by (apply Qle_shift_div_l; lra).
    assert (Hmb : 0 <= inject_Z (Sub.total_bytes w) / (last - first) / (1024 * 1024))
      by (apply Qle_shift_div_l; lra).
    repeat split; lra.
Qed.

Lemma subscriber_figures_not_negative_witness :
  exists o s σ,
    Sub.main steady_clock trickle 5 30 40 init = Some (Ok (o, s, σ))
    /\ 0 <= Sub.elapsed_time s
    /\ match Sub.msgs_per_s s with Fin q => 0 <= q | Inf => True end
    /\ match Sub.mbytes_per_s s with Fin q => 0 <= q | Inf => True end
    /\ match Sub.mbits_per_s s with Fin q => 0 <= q | Inf => True end.
Proof.
  destruct (Sub.main steady_clock trickle 5 30 40 init) as [[[[o s] σ]|e]|] eqn:E;
    [|vm_compute in E; discriminate|vm_compute in E; discriminate].
  exists o, s, σ. split; [reflexivity|].
  apply (subscriber_figures_not_negative steady_clock trickle 5 30 40 o s σ
           steady_clock_nondecreasing E).
Defined.

(** ** The effects of the publisher *)

Lemma send_effects (clock : nat -> Q) (msg : list byte) (interval start_time : Q)
    (σ : World) (i : Z) :
  reads (Pub.send clock msg interval start_time σ i)
    = (reads σ + if Qgtb interval 0 then 1 else 0)%nat
  /\ exists es,
       trace (Pub.send clock msg interval start_time σ i) = trace σ ++ es
       /\ payloads es = [msg].
Proof.
  unfold Pub.send, Pub.pace, writer_write, perf_counter.
  destruct (Qgtb interval 0); simpl.
  - match goal with |- context [if ?b then _ else _] => destruct b end; simpl;
      (split; [lia|]); eexists; rewrite <- !app_assoc; split; reflexivity.
  - split; [lia|]. eexists. split; reflexivity.
Qed.

Lemma publish_loop_effects (clock : nat -> Q) (msg : list byte) (interval start_time : Q)
    (count : Z) (σ : World) :
  reads (Pub.publish_loop clock msg interval start_time count σ)
    = (reads σ + if Qgtb interval 0 then Z.to_nat count else 0)%nat
  /\ exists es,
       trace (Pub.publish_loop clock msg interval start_time count σ) = trace σ ++ es
       /\ payloads es = repeat msg (Z.to_nat count).
Proof.
  unfold Pub.publish_loop. rewrite <- (length_seqZ 0 count). unfold range.
  generalize (seqZ 0 count). intros l. revert σ.
  induction l as [|i l IH]; intros σ.
  - simpl. split; [destruct (Qgtb interval 0); lia|].
    exists []. by rewrite app_nil_r.
  - simpl fold_left.
    destruct (send_effects clock msg interval start_time σ i) as (Hr1 & es1 & Ht1 & Hp1).
    destruct (IH (Pub.send clock msg interval start_time σ i)) as (Hr2 & es2 & Ht2 & Hp2).
    split.
    + rewrite Hr2, Hr1. simpl length. destruct (Qgtb interval 0); lia.
    + exists (es1 ++ es2). rewrite Ht2, Ht1, <- app_assoc. split; [reflexivity|].
      by rewrite payloads_app, Hp1, Hp2.
Qed.

Lemma interval_sign (rate : argfloat) (interval : Q) :
  Pub.interval rate = Ok interval -> Qgtb interval 0 = paces rate.
Proof.
  destruct rate as [q| | |]; try (intros H; inversion H; subst; reflexivity).
  unfold Pub.interval, paces. destruct (Qgtb q 0) eqn:E.
  - apply Qgtb_true in E. rewrite truediv_ok by lra. intros H. inversion H; subst.
    apply Qgtb_true. apply Qlt_shift_div_l; lra.
  - intros H. inversion H; subst. reflexivity.
Qed.

(** The publisher up to its second reading, and what is left after it. *)
Lemma main_stages (clock : nat -> Q) (size count : Z) (rate : argfloat)
    (qos : Pub.qos_preset) (σ0 : World) :
  exists msg σ4,
    Pub.make_data_bytes size = Ok msg
    /\ reads σ4 = (reads σ0 + 2 + if paces rate then Z.to_nat count else 0)%nat
    /\ (exists es, trace σ4 = trace σ0 ++ es
                   /\ payloads es = repeat msg (Z.to_nat count))
    /\ let elapsed := clock (pred (reads σ4)) - clock (reads σ0) in
       Pub.main clock size count rate qos σ0 =
         (throughput_msgs ← truediv (inject_Z count) elapsed;
          throughput_bytes ← truediv (inject_Z (size * count)) elapsed;
          throughput_mbps ← truediv throughput_bytes (1024 * 1024);
          Ok ({| Pub.elapsed := elapsed;
                 Pub.throughput_msgs := throughput_msgs;
                 Pub.throughput_mbps := throughput_mbps;
                 Pub.throughput_bits := throughput_mbps * 8 |},
              Pub.drain qos σ4)).
Proof.
  unfold Pub.main.
  destruct (make_data_bytes_total size) as [msg Hmsg]. rewrite Hmsg.
  destruct (interval_total rate) as [interval Hint]. rewrite Hint. simpl.
  set (σ2 := {| reads := S (reads σ0); polls := polls σ0;
                trace := (trace σ0 ++ [Slept 2]) ++ [Read (clock (reads σ0))] |}).
  destruct (publish_loop_effects clock msg interval (clock (reads σ0)) count σ2)
    as (Hr & es & Ht & Hp).
  set (σ3 := Pub.publish_loop clock msg interval (clock (reads σ0)) count σ2) in *.
  rewrite (interval_sign rate interval Hint) in Hr.
  exists msg, {| reads := S (reads σ3); polls := polls σ3;
                 trace := trace σ3 ++ [Read (clock (reads σ3))] |}.
  split; [reflexivity|]. split; [|split]; [| |reflexivity].
  - simpl. rewrite Hr. simpl. lia.
  - eexists. simpl. rewrite Ht. simpl. rewrite <- !app_assoc. split; [reflexivity|].
    simpl. rewrite payloads_app. simpl. by rewrite app_nil_r.
Qed.

(** X10. Every run that returns has written the same payload [count]
    times and nothing else: the bytes of [make_data_bytes size], built
    once.  It has read the clock twice around the loop, and once per
    message in between exactly when the loop paces, that is when the rate
    is a finite number above zero; at the rate [inf], whose interval is
    [0.0], it reads the clock twice only, as at the rate [0]. *)
Theorem publisher_writes_one_payload (clock : nat -> Q) (size count : Z) (rate : argfloat)
    (qos : Pub.qos_preset) (σ0 : World) (r : Pub.Results) (σ' : World) :
  Pub.main clock size count rate qos σ0 = Ok (r, σ') ->
  exists msg,
    Pub.make_data_bytes size = Ok msg
    /\ payloads (trace σ') = payloads (trace σ0) ++ repeat msg (Z.to_nat count)
    /\ reads σ' = (reads σ0 + 2 + match rate with
                                  | Finite q => if Qgtb q 0 then Z.to_nat count else 0
                                  | PlusInf => 0
                                  | MinusInf => 0
                                  | NaN => 0
                                  end)%nat.
Proof.
  intros H.
  destruct (main_stages clock size count rate qos σ0)
    as (msg & σ4 & Hmsg & Hr & (es & Ht & Hp) & Hmain).
  cbv zeta in Hmain. rewrite Hmain in H. clear Hmain.
  destruct (truediv (inject_Z count) _) as [m|]; [|discriminate]. simpl in H.
  destruct (truediv (inject_Z (size * count)) _) as [b|]; [|discriminate]. simpl in H.
  assert (Hr' : reads σ4 = (reads σ0 + 2 + match rate with
                                           | Finite q => if Qgtb q 0 then Z.to_nat count else 0
                                           | PlusInf => 0
                                           | MinusInf => 0
                                           | NaN => 0
                                           end)%nat).
  { rewrite Hr. by destruct rate. }
  inversion H; subst. exists msg. split; [exact Hmsg|].
  destruct qos; unfold Pub.drain, sleep, emit; simpl;
    rewrite ?payloads_app, Ht, payloads_app, Hp; simpl; rewrite ?app_nil_r; split;
    reflexivity || exact Hr'.
Qed.

Lemma publisher_writes_one_payload_witness :
  (exists r σ' msg,
     Pub.main steady_clock 4 3 (1 # 2) Pub.Reliable init = Ok (r, σ')
     /\ Pub.make_data_bytes 4 = Ok msg
     /\ payloads (trace σ') = payloads (trace init) ++ repeat msg (Z.to_nat 3)
     /\ reads σ' = (reads init + 2 + if Qgtb (1 # 2) 0 then Z.to_nat 3 else 0)%nat)
  /\ (exists r σ' msg,
        Pub.main steady_clock 4 3 PlusInf Pub.Reliable init = Ok (r, σ')
        /\ Pub.make_data_bytes 4 = Ok msg
        /\ payloads (trace σ') = payloads (trace init) ++ repeat msg (Z.to_nat 3)
        /\ reads σ' = (reads init + 2 + 0)%nat).
Proof.
  split.
  - destruct (Pub.main steady_clock 4 3 (1 # 2) Pub.Reliable init) as [[r σ']|e] eqn:E;
      [|vm_compute in E; discriminate].
    destruct (publisher_writes_one_payload steady_clock 4 3 (1 # 2) Pub.Reliable init r σ' E)
      as (msg & H).
    exists r, σ', msg. split; [reflexivity|exact H].
  - destruct (Pub.main steady_clock 4 3 PlusInf Pub.Reliable init) as [[r σ']|e] eqn:E;
      [|vm_compute in E; discriminate].
    destruct (publisher_writes_one_payload steady_clock 4 3 PlusInf Pub.Reliable init r σ' E)
      as (msg & H).
    exists r, σ', msg. split; [reflexivity|exact H].
Defined.

(** ** The payload at every size *)

Lemma bytes_app (xs ys : list Z) (a b : list byte) :
  bytes xs = Ok a -> bytes ys = Ok b -> bytes (xs ++ ys) = Ok (a ++ b).
Proof.
  revert a. induction xs as [|x xs IH]; intros a Ha Hb.
  - inversion Ha; subst. exact Hb.
  - simpl in *. destruct (byte_of_int x) as [c|]; [|discriminate]. simpl in *.
    destruct (bytes xs) as [a'|]; [|discriminate]. simpl in Ha. inversion Ha; subst.
    rewrite (IH a' eq_refl Hb). reflexivity.
Qed.

(** X13. [make_data_bytes] never raises, whatever the int: a negative size
    gives the empty payload like size zero, and in every case the length
    is [max(0, size)] and the bytes are [i mod 256] over [range(size)]. *)
Theorem make_data_bytes_any_size :
  forall size : Z,
    exists bs,
      Pub.make_data_bytes size = Ok bs
      /\ Z.of_nat (length bs) = Z.max 0 size
      /\ int_of_byte <$> bs = (fun i => i mod 256)%Z <$> range size
      /\ (size <= 0 -> bs = [])%Z.
Proof.
  intros size. unfold Pub.make_data_bytes.
  destruct (bytes_ok _ (mod256_range (range size))) as (bs & Hbs & Hval).
  exists bs. split; [exact Hbs|].
  assert (Hlen : length bs = Z.to_nat size).
  { rewrite <- (length_fmap int_of_byte bs), Hval, length_fmap.
    unfold range. apply length_seqZ. }
  split; [lia|]. split; [exact Hval|].
  intros Hneg. apply nil_length_inv. lia.
Qed.

(** X14. Payloads of different sizes share their content: the payload of a
    smaller size is a prefix of the payload of any larger size. *)
Theorem payload_is_prefix_of_larger (n m : Z) :
  (n <= m)%Z ->
  exists a b,
    Pub.make_data_bytes n = Ok a
    /\ Pub.make_data_bytes m = Ok b
    /\ a `prefix_of` b.
Proof.
  intros Hnm.
  destruct (make_data_bytes_total n) as [a Ha].
  destruct (make_data_bytes_total m) as [b Hb].
  exists a, b. split; [exact Ha|]. split; [exact Hb|].
  destruct (Z.le_gt_cases n 0) as [Hn|Hn].
  - assert (a = []) as ->; [|apply prefix_nil].
    unfold Pub.make_data_bytes, range in Ha.
    assert (Hnil : seqZ 0 n = []) by (apply nil_length_inv; rewrite length_seqZ; lia).
    rewrite Hnil in Ha. by inversion Ha.
  - destruct (bytes_ok _ (mod256_range (seqZ (0 + n) (m - n)))) as (c & Hc & _).
    exists c. unfold Pub.make_data_bytes, range in *.
    replace m with (n + (m - n))%Z in Hb by lia.
    rewrite seqZ_app, fmap_app in Hb by lia.
    rewrite (bytes_app _ _ a c Ha Hc) in Hb. by inversion Hb.
Qed.

Lemma payload_is_prefix_of_larger_witness :
  exists a b,
    Pub.make_data_bytes 3 = Ok a
    /\ Pub.make_data_bytes 300 = Ok b
    /\ a `prefix_of` b.
Proof. apply (payload_is_prefix_of_larger 3 300). lia. Defined.

(** ** Publisher and subscriber over a loopback *)

Lemma make_data_bytes_length (size : Z) (msg : list byte) :
  Pub.make_data_bytes size = Ok msg -> length msg = Z.to_nat size.
Proof.
  intros H. unfold Pub.make_data_bytes in H.
  destruct (bytes_ok _ (mod256_range (range size))) as (bs & Hbs & Hval).
  rewrite Hbs in H. inversion H; subst.
  rewrite <- (length_fmap int_of_byte msg), Hval, length_fmap.
  unfold range. apply length_seqZ.
Qed.

Lemma valid_data (ws : list (list byte)) :
  valid (BenchmarkData <$> ws) = Z.of_nat (length ws).
Proof.
  induction ws as [|d ws IH]; [reflexivity|].
  rewrite fmap_cons. cbn [valid length]. rewrite IH. lia.
Qed.

Lemma payload_bytes_repeat (msg : list byte) (n : nat) :
  payload_bytes (BenchmarkData <$> repeat msg n) = (Z.of_nat (length msg) * Z.of_nat n)%Z.
Proof.
  induction n as [|n IH]; [simpl; lia|].
  cbn [repeat]. rewrite fmap_cons. cbn [payload_bytes]. rewrite IH. lia.
Qed.

Lemma repeat_as_replicate {A : Type} (x : A) (n : nat) : repeat x n = replicate n x.
Proof. induction n as [|n IH]; [reflexivity|]. simpl. by rewrite IH. Qed.

(** The batches of a loopback that carries [n] copies of one payload. *)
Lemma loopback_batch (msg : list byte) (n k : nat) :
  take 1000 (loopback (repeat msg n) k)
  = BenchmarkData <$> repeat msg (1000 `min` (n - 1000 * k)).
Proof.
  unfold loopback. rewrite !repeat_as_replicate, drop_replicate, take_replicate.
  rewrite take_ge; [reflexivity|].
  rewrite length_fmap, length_replicate. lia.
Qed.

Lemma loopback_yielded (msg : list byte) (n p : nat) :
  yielded (loopback (repeat msg n)) p = Z.of_nat ((1000 * p) `min` n)
  /\ yielded_bytes (loopback (repeat msg n)) p
     = (Z.of_nat (length msg) * Z.of_nat ((1000 * p) `min` n))%Z.
Proof.
  induction p as [|p [IH1 IH2]]; [split; simpl; lia|].
  simpl yielded. simpl yielded_bytes.
  rewrite IH1, IH2, loopback_batch, valid_data, payload_bytes_repeat, repeat_length.
  split; lia.
Qed.

Section Completion.

Variable clock : nat -> Q.
Variable transport : nat -> list sample.
Variable count : Z.
Variable timeout : argfloat.

(** While every pass that is made finds the deadline not passed and a
    batch that is not empty, the loop completes, having counted every
    batch it took; pass [k] is made when the first [k] batches held fewer
    than [count] data samples, and its check is reading [2 * k + 1]. *)
Lemma receive_loop_completes (p : nat) (start_wait : Q) :
  (forall k, (yielded transport k < count)%Z ->
     Qgt_arg (clock (2 * k + 1)%nat - start_wait) timeout = false) ->
  (forall k, (yielded transport k < count)%Z -> transport k <> []) ->
  (count <= yielded transport p)%Z ->
  forall (d : nat) (w : Sub.Window) (σ : World),
    (polls σ + d = p)%nat ->
    reads σ = (2 * polls σ + 1)%nat ->
    Sub.received_count w = yielded transport (polls σ) ->
    Sub.total_bytes w = yielded_bytes transport (polls σ) ->
    exists fuel w' σ',
      Sub.receive_loop clock transport count timeout fuel start_wait w σ
        = Some (Sub.Complete, w', σ')
      /\ Sub.received_count w' = yielded transport (polls σ')
      /\ Sub.total_bytes w' = yielded_bytes transport (polls σ').
Proof.
  intros Hintime Hfull Hk. induction d as [|d IH]; intros w σ Hd Hreads Hrc Htb.
  - exists 1%nat, w, σ. split; [|by split].
    apply receive_loop_done. rewrite Hrc. replace (polls σ) with p by lia. exact Hk.
  - destruct (Z.lt_ge_cases (Sub.received_count w) count) as [Hc|Hc].
    + assert (Hy : (yielded transport (polls σ) < count)%Z) by (by rewrite <- Hrc).
      assert (E : timed_out clock timeout start_wait σ = false).
      { unfold timed_out. rewrite Hreads. by apply Hintime. }
      destruct (poll_in_time clock transport count timeout start_wait w σ E)
        as (σ0 & σ1 & Hp & Hpolls & _).
      destruct (on_batch_fields count (clock (S (reads σ))) (batch_of transport σ) w σ0)
        as (Hrc' & Htb' & _).
      set (w1 := (Sub.on_batch count (clock (S (reads σ))) (batch_of transport σ) (w, σ0)).1) in *.
      assert (Hrc0 : (0 <= Sub.received_count w)%Z).
      { rewrite Hrc. apply (yielded_mono transport 0 (polls σ)). lia. }
      destruct (poll_inr_accounting clock transport count timeout start_wait w w1 σ σ1 Hrc0 Hp)
        as (_ & _ & Hr & _).
      assert (Hr2 : reads σ1 = S (S (reads σ))).
      { rewrite Hr. unfold batch_of. specialize (Hfull (polls σ) Hy).
        destruct (transport (polls σ)) as [|x rest]; [congruence|reflexivity]. }
      destruct (IH w1 σ1) as (fuel & w' & σ' & Hloop & Hfin); try lia.
      * rewrite Hrc', Hpolls, Hrc. reflexivity.
      * rewrite Htb', Hpolls, Htb. reflexivity.
      * exists (S fuel), w', σ'. split; [|exact Hfin].
        by rewrite (receive_loop_step _ _ _ _ _ _ _ _ _ _ Hc Hp).
    + exists 1%nat, w, σ. split; [|by split]. apply receive_loop_done. lia.
Qed.

End Completion.

(** X16. Publisher and subscriber compose: when the payloads that a
    publisher run wrote are handed to the reader in order, as much as each
    poll can take, and the subscriber is not late at the checks it makes
    before taking them (the check of pass [k], made while [1000 * k] is
    below [count], is reading [2 * k + 1]; there is none when [count] is
    zero), the subscriber completes with exactly [count] messages and
    [size * count] bytes, and prints no loss. *)
Theorem loopback_delivers_everything (pclock sclock : nat -> Q) (size count : Z)
    (rate timeout : argfloat) (qos : Pub.qos_preset) (r : Pub.Results) (σp : World) :
  (0 <= size)%Z -> (0 <= count)%Z ->
  Pub.main pclock size count rate qos init = Ok (r, σp) ->
  (forall k : nat, (1000 * Z.of_nat k < count)%Z ->
     Qgt_arg (sclock (2 * k + 1)%nat - sclock O) timeout = false) ->
  exists fuel s σs,
    Sub.main sclock (loopback (payloads (trace σp))) count timeout fuel init
      = Some (Ok (Sub.Complete, s, σs))
    /\ Sub.messages_received s = count
    /\ Sub.bytes_received s = (size * count)%Z
    /\ Sub.message_loss s = None.
Proof.
  intros Hsize Hcount Hpub Hintime.
  destruct (main_stages pclock size count rate qos init)
    as (msg & σ4 & Hmsg & _ & (es & Ht & Hp) & Hmain).
  cbv zeta in Hmain. rewrite Hmain in Hpub. clear Hmain.
  destruct (truediv (inject_Z count) _) as [m|]; [|discriminate]. simpl in Hpub.
  destruct (truediv (inject_Z (size * count)) _) as [b|]; [|discriminate]. simpl in Hpub.
  assert (Hws : payloads (trace σp) = repeat msg (Z.to_nat count)).
  { inversion Hpub; subst.
    destruct qos; unfold Pub.drain, sleep, emit; simpl;
      rewrite ?payloads_app, Ht, payloads_app, Hp; simpl; by rewrite ?app_nil_r. }
  rewrite Hws. set (n := Z.to_nat count) in *.
  set (transport := loopback (repeat msg n)).
  assert (Hbelow : forall k, (yielded transport k < count)%Z -> (1000 * k < n)%nat).
  { intros k Hy. unfold transport in Hy. rewrite (proj1 (loopback_yielded msg n k)) in Hy. lia. }
  destruct (receive_loop_completes sclock transport count timeout n (sclock O))
    with (d := n) (w := Sub.zero) (σ := started sclock)
    as (fuel & w & σ & Hloop & Hrc & Htb); try reflexivity; try (simpl; lia).
  { intros k Hy. apply Hintime. specialize (Hbelow k Hy). lia. }
  { intros k Hy. specialize (Hbelow k Hy). unfold transport, loopback.
    rewrite repeat_as_replicate, drop_replicate.
    destruct (n - 1000 * k)%nat as [|j] eqn:Ej; [lia|discriminate]. }
  { unfold transport. rewrite (proj1 (loopback_yielded msg n n)). lia. }
  pose proof (receive_loop_exit _ _ _ _ _ _ _ _ _ _ _ Hloop) as Hexit. simpl in Hexit.
  destruct (loopback_yielded msg n (polls σ)) as [Hy Hyb].
  fold transport in Hy, Hyb. rewrite Hy in Hrc. rewrite Hyb in Htb.
  assert (Hrcn : Sub.received_count w = count) by lia.
  assert (Htbn : Sub.total_bytes w = (size * count)%Z).
  { rewrite Htb, (make_data_bytes_length size msg Hmsg).
    replace (Z.of_nat ((1000 * polls σ) `min` n)) with count by lia. lia. }
  destruct (main_result _ _ _ _ _ _ _ _ Hloop) as (s & Hmain & _ & Hm & Hb & Hloss).
  exists fuel, s, σ. split; [exact Hmain|]. rewrite Hm, Hb, Hloss, Hrcn, Htbn.
  split; [reflexivity|]. split; [reflexivity|]. by rewrite Z.ltb_irrefl.
Qed.

Lemma loopback_delivers_everything_witness :
  exists r σp fuel s σs,
    Pub.main steady_clock 4 3 0 Pub.Reliable init = Ok (r, σp)
    /\ Sub.main frozen_clock (loopback (payloads (trace σp))) 3 30 fuel init
         = Some (Ok (Sub.Complete, s, σs))
    /\ Sub.messages_received s = 3%Z
    /\ Sub.bytes_received s = (4 * 3)%Z
    /\ Sub.message_loss s = None.
Proof.
  destruct (Pub.main steady_clock 4 3 0 Pub.Reliable init) as [[r σp]|e] eqn:E;
    [|vm_compute in E; discriminate].
  destruct (loopback_delivers_everything steady_clock frozen_clock 4 3 0 30
              Pub.Reliable r σp) as (fuel & s & σs & H); [lia|lia|exact E| |].
  - intros k _. reflexivity.
  - exists r, σp, fuel, s, σs. split; [reflexivity|exact H].
Defined.

(** With [count] zero there is no check to be late at: the subscriber
    completes at once, also with a deadline that has passed before the
    first reading. *)
Example loopback_of_nothing :
  exists r σp s σs,
    Pub.main steady_clock 4 0 0 Pub.BestEffort init = Ok (r, σp)
    /\ Sub.main steady_clock (loopback (payloads (trace σp))) 0 MinusInf 1 init
         = Some (Ok (Sub.Complete, s, σs))
    /\ Sub.messages_received s = 0%Z
    /\ Sub.message_loss s = None.
Proof.
  eexists _, _, _, _. split; [vm_compute; reflexivity|].
  split; [vm_compute; reflexivity|]. split; reflexivity.
Qed.

(** ** Deadline and loss *)

(** X17. A loss figure goes with a timeout and only with it: a finished
    run prints the loss line exactly when it left the loop by its deadline;
    a run that completes prints none, also when it received more than
    [count]. *)
Theorem loss_iff_timeout (clock : nat -> Q) (transport : nat -> list sample)
    (count : Z) (timeout : argfloat) (fuel : nat) (o : Sub.outcome) (s : Sub.Summary) (σ : World) :
  Sub.main clock transport count timeout fuel init = Some (Ok (o, s, σ)) ->
  (o = Sub.Timeout <-> exists l, Sub.message_loss s = Some l)
  /\ (o = Sub.Complete <-> Sub.message_loss s = None).
Proof.
  intros Hmain.
  destruct (main_inv _ _ _ _ _ _ _ _ Hmain) as (w & Hloop & Hrep).
  pose proof (receive_loop_exit _ _ _ _ _ _ _ _ _ _ _ Hloop) as Hexit.
  destruct (main_result _ _ _ _ _ _ _ _ Hloop) as (s' & _ & Hrep' & _ & _ & Hloss).
  rewrite Hrep in Hrep'. inversion Hrep'; subst s'. rewrite Hloss.
  destruct o.
  - replace (Sub.received_count w <? count)%Z with false
      by (symmetry; apply Z.ltb_ge; exact Hexit).
    split; split; try reflexivity; try discriminate. intros [l Hl]. discriminate.
  - destruct Hexit as [Hc _]. rewrite (proj2 (Z.ltb_lt _ _) Hc).
    split; split; try reflexivity; try discriminate. eauto.
Qed.

Lemma loss_iff_timeout_witness :
  exists o s σ,
    Sub.main steady_clock trickle 5 30 40 init = Some (Ok (o, s, σ))
    /\ (o = Sub.Timeout <-> exists l, Sub.message_loss s = Some l)
    /\ (o = Sub.Complete <-> Sub.message_loss s = None).
Proof.
  destruct (Sub.main steady_clock trickle 5 30 40 init) as [[[[o s] σ]|e]|] eqn:E;
    [|vm_compute in E; discriminate|vm_compute in E; discriminate].
  exists o, s, σ. split; [reflexivity|].
  apply (loss_iff_timeout steady_clock trickle 5 30 40 o s σ E).
Defined.

(** X18. The deadline is checked before the reader is asked: when the
    first check already finds the deadline passed (as with a timeout of
    zero on a clock that has moved), a run for a positive [count] takes no
    batch at all, whatever the transport holds, and ends in [Timeout] with
    nothing received and a loss of one hundred percent. *)
Theorem late_first_check_takes_nothing (clock : nat -> Q) (transport : nat -> list sample)
    (count : Z) (timeout : Q) :
  (0 < count)%Z ->
  timeout < clock 1%nat - clock O ->
  exists s σ l,
    Sub.main clock transport count timeout 1 init = Some (Ok (Sub.Timeout, s, σ))
    /\ polls σ = O
    /\ took (trace σ) = []
    /\ Sub.messages_received s = 0%Z
    /\ Sub.message_loss s = Some l /\ l == 100.
Proof.
  intros Hcount Hlate.
  assert (E : timed_out clock timeout (clock O) (started clock) = true)
    by (apply Qgtb_true; exact Hlate).
  destruct (poll_timed_out clock transport count timeout (clock O) Sub.zero
              (started clock) E) as (σ & Hp & _ & Hpolls & Ht).
  assert (Hloop : Sub.receive_loop clock transport count timeout 1 (clock O) Sub.zero
                    (started clock) = Some (Sub.Timeout, Sub.zero, σ))
    by (apply receive_loop_break; [exact Hcount|exact Hp]).
  destruct (main_result _ _ _ _ _ _ _ _ Hloop) as (s & Hmain & _ & Hm & _ & Hloss).
  simpl in Hm, Hloss. rewrite (proj2 (Z.ltb_lt _ _) Hcount) in Hloss.
  exists s, σ, (loss_rate count 0). split; [exact Hmain|].
  split; [exact Hpolls|]. split; [by rewrite Ht|]. split; [exact Hm|].
  split; [exact Hloss|]. unfold loss_rate. rewrite Z.sub_0_r. field.
  change 0 with (inject_Z 0). rewrite inject_Z_injective. lia.
Qed.

Lemma late_first_check_takes_nothing_witness :
  exists s σ l,
    Sub.main steady_clock burst 2 0 1 init = Some (Ok (Sub.Timeout, s, σ))
    /\ polls σ = O
    /\ took (trace σ) = []
    /\ Sub.messages_received s = 0%Z
    /\ Sub.message_loss s = Some l /\ l == 100.
Proof.
  apply (late_first_check_takes_nothing steady_clock burst 2 0); reflexivity.
Defined.
